(** * monkeyhub: the daily word game

    A shallow embedding of the Convex backend (convex/wordle.ts: puzzle and
    game-state tables, the [checkGuess] action with its inline feedback
    evaluation) and of the keyboard colouring of the game page
    (the WordlePage component: [isLetterAbsent], [getKeyColor]), with the
    properties the specification states about them. *)

From Stdlib Require Import NArith ZArith String Ascii.
From stdpp Require Import base tactics option list numbers.

(** ** JavaScript values used by the program *)

(** A JavaScript string is a sequence of UTF-16 code units; [length],
    [split("")], indexing and [===] all work on code units. *)
Abbreviation codeUnit := N.
Abbreviation JsString := (list N).

(** The code units of a literal (used for the concrete scenarios). *)
Definition js (s : string) : JsString :=
  N_of_ascii <$> list_ascii_of_string s.

(** [String.prototype.toLowerCase] and [toUpperCase] follow the Unicode case
    tables of the host; the program is embedded over any such pair. *)
Class CaseMapping := {
  toLowerCase : JsString → JsString;
  toUpperCase : JsString → JsString
}.

(** On code units below 128 the host maps A-Z to a-z and back and leaves the
    rest alone; this instance is used at ASCII inputs only. *)
Definition asciiLower (c : codeUnit) : codeUnit :=
  if bool_decide (65 ≤ c ≤ 90)%N then (c + 32)%N else c.
Definition asciiUpper (c : codeUnit) : codeUnit :=
  if bool_decide (97 ≤ c ≤ 122)%N then (c - 32)%N else c.
Definition asciiCase : CaseMapping :=
  {| toLowerCase := fmap asciiLower; toUpperCase := fmap asciiUpper |}.

(** Errors thrown by the backend, named after their messages. *)
Inductive Error :=
  | NotAuthenticated        (* "Not authenticated" *)
  | FailedToFetchPuzzle     (* "Failed to fetch puzzle: <status>" *)
  | GuessMustBe5Letters     (* "Guess must be 5 letters" *)
  | MaximumGuessesReached   (* "Maximum guesses reached" *)
  | GameIsAlreadyOver       (* "Game is already over" *)
  | RegExpSyntaxError       (* SyntaxError of [new RegExp] *)
  | ArgumentValidationError (* a value refused by a Convex validator *)
  | CannotGetCurrentUser.   (* thrown by [getCurrentUserOrThrow] *)

Inductive Result (A : Type) :=
  | Ok (a : A)
  | Throw (e : Error).
Arguments Ok {A} a.
Arguments Throw {A} e.

Inductive Feedback := correct | present | absent.

#[global] Instance Feedback_eq_dec : EqDecision Feedback.
Proof. solve_decision. Defined.
#[global] Instance Error_eq_dec : EqDecision Error.
Proof. solve_decision. Defined.

(** *** Arrays written by index

    [const feedback = []] followed by [feedback[i] = v]: a slot never written
    is a hole and reads as [undefined]; writing past the end extends the
    array with holes. *)
Definition arraySet {A} (i : nat) (v : A) (arr : list (option A)) : list (option A) :=
  if decide (i < length arr) then <[i := Some v]> arr
  else arr ++ replicate (i - length arr) None ++ [Some v].

Definition arrayGet {A} (arr : list (option A)) (i : nat) : option A :=
  mjoin (arr !! i).

(** [Array.prototype.filter] with a callback reading the element and its index. *)
Fixpoint filterFrom {A} (f : A → nat → bool) (k : nat) (l : list A) : list A :=
  match l with
  | [] => []
  | x :: l' => if f x k then x :: filterFrom f (S k) l' else filterFrom f (S k) l'
  end.
Definition jsFilter {A} (f : A → nat → bool) (l : list A) : list A := filterFrom f 0 l.

(** [arr.map((x, idx) => ...).reduce((a, b) => a + b, 0)] *)
Definition mapReduceSum {A} (f : A → nat → nat) (l : list A) : nat :=
  foldl Nat.add 0 (imap (λ idx x, f x idx) l).

(** [String.prototype.includes]: does [needle] occur as a substring? *)
Fixpoint startsWith (needle hay : JsString) : bool :=
  match needle, hay with
  | [], _ => true
  | _ :: _, [] => false
  | a :: needle', b :: hay' => bool_decide (a = b) && startsWith needle' hay'
  end.
Fixpoint includesString (hay needle : JsString) : bool :=
  startsWith needle hay ||
  match hay with
  | [] => false
  | _ :: hay' => includesString hay' needle
  end.

(** A value read from [guessLetters[i]] or [solutionLetters[i]] is a one-unit
    string, or [undefined] ([None]) past the end. [includes(undefined)]
    searches for the text "undefined". *)
Definition includes (solution : JsString) (letter : option codeUnit) : bool :=
  match letter with
  | Some c => includesString solution [c]
  | None => includesString solution (js "undefined")
  end.

(** *** [new RegExp(letter, "g")]

    The pattern is the letter itself, unescaped. Seven one-unit patterns are
    refused by the constructor (SyntaxError): backslash, the quantifiers
    [* + ?], the brackets [( ) [].  Four more are accepted but are not
    literals: [.] matches any unit but a line terminator, [^] and [$] match
    the empty string once, [|] matches the empty string at every index. Every
    other unit, including [ ] { } ], matches itself. *)
Definition regexpThrows (c : codeUnit) : bool :=
  bool_decide (c ∈ [92; 42; 43; 63; 40; 41; 91]%N).

Definition regexpAssertionOrWildcard (c : codeUnit) : bool :=
  bool_decide (c ∈ [46; 94; 36; 124]%N).

Definition regexpLiteral (c : codeUnit) : bool :=
  negb (regexpThrows c) && negb (regexpAssertionOrWildcard c).

Definition lineTerminator (c : codeUnit) : bool :=
  bool_decide (c ∈ [10; 13; 8232; 8233]%N).

(** [(solution.match(new RegExp(letter, "g")) || []).length] *)
Definition matchCount (solution : JsString) (letter : option codeUnit) : Result nat :=
  match letter with
  | None => Ok (S (length solution))          (* RegExp(undefined) is /(?:)/ *)
  | Some c =>
      if regexpThrows c then Throw RegExpSyntaxError
      else if bool_decide (c = 46%N) then
        Ok (length (List.filter (λ u, negb (lineTerminator u)) solution))
      else if bool_decide (c = 94%N) || bool_decide (c = 36%N) then Ok 1
      else if bool_decide (c = 124%N) then Ok (S (length solution))
      else Ok (length (List.filter (λ u, bool_decide (u = c)) solution))
  end.

(** ** The feedback evaluation inlined in [checkGuess] (lines 207-247) *)

(** First pass: mark correct positions. *)
Definition firstPass (guessLetters solutionLetters : JsString) : list (option Feedback) :=
  foldl (λ feedback i,
           if decide (guessLetters !! i = solutionLetters !! i)
           then arraySet i correct feedback
           else feedback)
        [] (seq 0 5).

(** The body of the second loop at index [i]. *)
Definition secondPassBody (solution guessLetters solutionLetters : JsString)
    (feedback : list (option Feedback)) (i : nat) : Result (list (option Feedback)) :=
  if decide (arrayGet feedback i = Some correct) then Ok feedback (* continue *)
  else
    let letter := guessLetters !! i in
    match matchCount solution letter with
    | Throw e => Throw e
    | Ok solutionCount =>
        let correctCount :=
          mapReduceSum (λ sol idx,
            if bool_decide (Some sol = letter) && bool_decide (guessLetters !! idx = letter)
            then 1 else 0) solutionLetters in
        let alreadyMarkedPresent :=
          length (jsFilter (λ g idx,
            bool_decide (Some g = letter) &&
            bool_decide (arrayGet feedback idx = Some present))
            (take i guessLetters)) in
        if includes solution letter &&
           bool_decide (correctCount + alreadyMarkedPresent < solutionCount)
        then Ok (arraySet i present feedback)
        else Ok (arraySet i absent feedback)
    end.

(** Second pass: mark present and absent. *)
Definition secondPass (solution guessLetters solutionLetters : JsString)
    (feedback : list (option Feedback)) : Result (list (option Feedback)) :=
  foldl (λ acc i,
           match acc with
           | Ok fb => secondPassBody solution guessLetters solutionLetters fb i
           | Throw e => Throw e
           end)
        (Ok feedback) (seq 0 5).

(** The array as the validator [v.array(v.union(...))] of
    [saveGameStateInternal] accepts it: every slot holds one of the three
    literals. *)
Fixpoint denseArray {A} (arr : list (option A)) : Result (list A) :=
  match arr with
  | [] => Ok []
  | None :: _ => Throw ArgumentValidationError
  | Some v :: arr' =>
      match denseArray arr' with
      | Ok l => Ok (v :: l)
      | Throw e => Throw e
      end
  end.

Definition computeFeedbackArray (solution guess : JsString) : Result (list (option Feedback)) :=
  let solutionLetters := solution in   (* solution.split("") *)
  let guessLetters := guess in         (* guess.split("") *)
  secondPass solution guessLetters solutionLetters (firstPass guessLetters solutionLetters).

Definition computeFeedback (solution guess : JsString) : Result (list Feedback) :=
  match computeFeedbackArray solution guess with
  | Ok arr => denseArray arr
  | Throw e => Throw e
  end.

(** ** The tables (convex/schema.ts) *)

Module User.
(** A document of the [users] table; [_id] is the document id Convex
    assigns, [externalId] the Clerk id "stored in the subject JWT field". *)
Record t := { _id : JsString; name : JsString; externalId : JsString }.
End User.

Module Wordle.
Record t := {
  date : JsString;            (* YYYY-MM-DD *)
  solution : JsString;
  puzzleId : Z;
  printDate : JsString;
  daysSinceLaunch : Z
}.
End Wordle.

Module Guess.
Record t := { word : JsString; feedback : list Feedback }.
End Guess.

Module GameState.
Record t := {
  userId : JsString;
  date : JsString;
  guesses : list Guess.t;
  isGameOver : bool
}.
End GameState.

Record DB := {
  users : list User.t;
  wordles : list Wordle.t;
  wordleGameStates : list GameState.t
}.

(** ** The request: the caller's identity and the puzzle source *)

(** [ctx.auth.getUserIdentity()]: [subject] is the JWT's sub field. *)
Record UserIdentity := { subject : JsString }.

(** The body of an ok response of the puzzle source. *)
Record PuzzleData := {
  pd_solution : JsString;
  pd_id : Z;
  pd_print_date : JsString;
  pd_days_since_launch : Z
}.

(** [auth] is [None] for an anonymous caller; [fetch date] is [None] when the
    response for that date is not ok. *)
Record Request := {
  auth : option UserIdentity;
  fetch : JsString → option PuzzleData
}.

(** [getCurrentUserOrThrow] is imported from ./users; it reads the caller's
    identity and the database and returns a [users] document or throws. *)
Class UsersModule := {
  getCurrentUserOrThrow : option UserIdentity → DB → Result User.t
}.

(** Modelled from the spec: the module ./users is not among the sources. The
    authentication collaborator "supplies a stable, opaque user identifier for
    the current request"; the schema keeps that identifier in [externalId]
    (index byExternalId), so the helper returns the document whose
    [externalId] is the identity's subject and throws when there is none. *)
Definition userByExternalId (externalId : JsString) (db : DB) : option User.t :=
  snd <$> list_find (λ u, User.externalId u = externalId) (users db).

Definition usersByExternalId : UsersModule :=
  {| getCurrentUserOrThrow := λ auth db,
       match auth with
       | None => Throw CannotGetCurrentUser
       | Some identity =>
           match userByExternalId (subject identity) db with
           | Some user => Ok user
           | None => Throw CannotGetCurrentUser
           end
       end |}.

(** ** Actions: state passing with exceptions

    An action runs queries and mutations against the database one after the
    other; what a mutation committed stays committed when the action throws
    later. A mutation is a transaction: it commits or throws. *)
Definition Action (A : Type) : Type := DB → DB * Result A.

Definition ret {A} (a : A) : Action A := λ db, (db, Ok a).
Definition throw {A} (e : Error) : Action A := λ db, (db, Throw e).
Definition bind {A B} (m : Action A) (k : A → Action B) : Action B :=
  λ db, match m db with
        | (db', Ok a) => k a db'
        | (db', Throw e) => (db', Throw e)
        end.
Definition liftResult {A} (r : Result A) : Action A :=
  match r with Ok a => ret a | Throw e => throw e end.
Definition runQuery {A} (q : DB → A) : Action A := λ db, (db, Ok (q db)).
Definition runMutation (m : DB → Result DB) : Action unit :=
  λ db, match m db with
        | Ok db' => (db', Ok tt)
        | Throw e => (db, Throw e)
        end.

Notation "x <- m ;; k" := (bind m (λ x, k))
  (at level 100, m at next level, right associativity).
Notation "m ;;; k" := (bind m (λ _, k))
  (at level 100, right associativity).

(** ** Queries and mutations (convex/wordle.ts) *)

Definition getPuzzleFromDb (date : JsString) (db : DB) : option Wordle.t :=
  snd <$> list_find (λ p, Wordle.date p = date) (wordles db).

(** The database after the insert of [storePuzzle]. *)
Definition insertPuzzle (date : JsString) (data : PuzzleData) (db : DB) : DB :=
  {| users := users db;
     wordles := wordles db ++
       [ {| Wordle.date := date;
            Wordle.solution := pd_solution data;
            Wordle.puzzleId := pd_id data;
            Wordle.printDate := pd_print_date data;
            Wordle.daysSinceLaunch := pd_days_since_launch data |} ];
     wordleGameStates := wordleGameStates db |}.

(** The id the mutation returns is not used by its caller and is left out. *)
Definition storePuzzle (date : JsString) (data : PuzzleData) (db : DB) : Result DB :=
  match list_find (λ p, Wordle.date p = date) (wordles db) with
  | Some _ => Ok db
  | None => Ok (insertPuzzle date data db)
  end.

Definition getGameStateInternal (userId date : JsString) (db : DB) : option GameState.t :=
  snd <$> list_find (λ gs, GameState.userId gs = userId ∧ GameState.date gs = date)
                    (wordleGameStates db).

(** [ctx.db.patch] rewrites the document the query found, at its place. *)
Definition saveGameStateInternal `{UsersModule} (auth : option UserIdentity)
    (date : JsString) (guesses : list Guess.t) (isGameOver : bool) (db : DB) : Result DB :=
  match getCurrentUserOrThrow auth db with
  | Throw e => Throw e
  | Ok user =>
      match list_find (λ gs, GameState.userId gs = User._id user ∧ GameState.date gs = date)
                      (wordleGameStates db) with
      | Some (i, existing) =>
          Ok {| users := users db;
                wordles := wordles db;
                wordleGameStates :=
                  <[i := {| GameState.userId := GameState.userId existing;
                            GameState.date := GameState.date existing;
                            GameState.guesses := guesses;
                            GameState.isGameOver := isGameOver |}]>
                  (wordleGameStates db) |}
      | None =>
          Ok {| users := users db;
                wordles := wordles db;
                wordleGameStates := wordleGameStates db ++
                  [ {| GameState.userId := User._id user;
                       GameState.date := date;
                       GameState.guesses := guesses;
                       GameState.isGameOver := isGameOver |} ] |}
      end
  end.

(** The public action [getPuzzle]: the answer of the puzzle source for the
    date, or the error for a response that is not ok; the database is not
    used. The object returned carries the four fields of the answer. *)
Definition getPuzzle (req : Request) (date : JsString) : Action PuzzleData :=
  match fetch req date with
  | None => throw FailedToFetchPuzzle
  | Some data => ret data
  end.

(** What the public query [getGameState] returns to the page: the stored
    document with the puzzle's [daysSinceLaunch] added (the page reads
    [guesses], [isGameOver] and [daysSinceLaunch]; the document's other fields
    are spread into the object as well and not read). *)
Module View.
Record t := {
  guesses : list Guess.t;
  isGameOver : bool;
  daysSinceLaunch : option Z
}.
End View.

Definition getGameState `{UsersModule} (auth : option UserIdentity) (date : JsString)
    (db : DB) : Result (option View.t) :=
  match getCurrentUserOrThrow auth db with
  | Throw e => Throw e
  | Ok user =>
      let gameState :=
        snd <$> list_find (λ gs, GameState.userId gs = User._id user ∧ GameState.date gs = date)
                          (wordleGameStates db) in
      let puzzle := snd <$> list_find (λ p, Wordle.date p = date) (wordles db) in
      match gameState with
      | None =>
          Ok (match puzzle with
              | Some p => Some {| View.guesses := []; View.isGameOver := false;
                                  View.daysSinceLaunch := Some (Wordle.daysSinceLaunch p) |}
              | None => None
              end)
      | Some gs =>
          Ok (Some {| View.guesses := GameState.guesses gs;
                      View.isGameOver := GameState.isGameOver gs;
                      View.daysSinceLaunch := Wordle.daysSinceLaunch <$> puzzle |})
      end
  end.

(** What [checkGuess] returns. *)
Record Output := {
  feedback : list Feedback;
  isCorrect : bool;
  isGameOver : bool
}.

(** Lines 145-179: the stored puzzle, or the fetched one, stored on the way. *)
Definition resolveSolution (req : Request) (date : JsString) : Action JsString :=
  puzzle <- runQuery (getPuzzleFromDb date) ;;
  match puzzle with
  | Some p => ret (Wordle.solution p)
  | None =>
      match fetch req date with
      | None => throw FailedToFetchPuzzle
      | Some puzzleData =>
          runMutation (storePuzzle date puzzleData) ;;;
          ret (pd_solution puzzleData)
      end
  end.

Definition checkGuess `{CaseMapping} `{UsersModule}
    (req : Request) (date rawGuess : JsString) : Action Output :=
  match auth req with
  | None => throw NotAuthenticated
  | Some identity =>
      puzzleSolution <- resolveSolution req date ;;
      let solution := toLowerCase puzzleSolution in
      let guess := toLowerCase rawGuess in
      if decide (length guess ≠ 5) then throw GuessMustBe5Letters else
      currentState <- runQuery (getGameStateInternal (subject identity) date) ;;
      if from_option (λ st, bool_decide (6 ≤ length (GameState.guesses st))) false currentState
      then throw MaximumGuessesReached else
      if from_option GameState.isGameOver false currentState
      then throw GameIsAlreadyOver else
      feedbackArray <- liftResult (computeFeedbackArray solution guess) ;;
      let isCorrect := bool_decide (guess = solution) in
      let existingGuesses := from_option GameState.guesses [] currentState in
      (* the argument validator of saveGameStateInternal *)
      feedback <- liftResult (denseArray feedbackArray) ;;
      let newGuess := {| Guess.word := toUpperCase guess; Guess.feedback := feedback |} in
      let updatedGuesses := existingGuesses ++ [newGuess] in
      let isGameOver := isCorrect || bool_decide (6 ≤ length updatedGuesses) in
      runMutation (saveGameStateInternal (auth req) date updatedGuesses isGameOver) ;;;
      ret {| feedback := feedback; isCorrect := isCorrect; isGameOver := isGameOver |}
  end.

(** ** The game page: keyboard colouring (WordlePage) *)

Module Page.
(** [type Feedback = "correct" | "present" | "absent" | null] *)
Record Guess := { word : JsString; feedback : list (option Feedback) }.

(** [guess.feedback[i]]: [None] for null and past the end. *)
Definition feedbackAt (g : Guess) (i : nat) : option Feedback :=
  mjoin (feedback g !! i).

(** [guess.word[i] === letter.toUpperCase()] *)
Definition letterAt `{CaseMapping} (g : Guess) (i : nat) (letter : JsString) : bool :=
  match word g !! i with
  | Some c => bool_decide (toUpperCase letter = [c])
  | None => false
  end.

(** The inner pair of loops: is the letter present or correct in any guess? *)
Definition foundPresentOrCorrect `{CaseMapping} (guesses : list Guess) (letter : JsString) : bool :=
  existsb (λ otherGuess,
    existsb (λ j,
      letterAt otherGuess j letter &&
      (bool_decide (feedbackAt otherGuess j = Some present) ||
       bool_decide (feedbackAt otherGuess j = Some correct)))
      (seq 0 (length (word otherGuess))))
    guesses.

Definition isLetterAbsent `{CaseMapping} (guesses : list Guess) (letter : JsString) : bool :=
  existsb (λ guess,
    existsb (λ i,
      letterAt guess i letter &&
      bool_decide (feedbackAt guess i = Some absent) &&
      negb (foundPresentOrCorrect guesses letter))
      (seq 0 (length (word guess))))
    guesses.

Definition absentKeyClass : string :=
  "bg-gray-500 text-white dark:bg-gray-600 opacity-50".
Definition defaultKeyClass : string :=
  "bg-gray-200 dark:bg-gray-700 text-gray-900 dark:text-gray-100".

Definition getKeyColor `{CaseMapping} (guesses : list Guess) (letter : JsString) : string :=
  if isLetterAbsent guesses letter then absentKeyClass else defaultKeyClass.

Definition keyboardRows : list (list JsString) :=
  [ js <$> ["Q"; "W"; "E"; "R"; "T"; "Y"; "U"; "I"; "O"; "P"];
    js <$> ["A"; "S"; "D"; "F"; "G"; "H"; "J"; "K"; "L"];
    js <$> ["Z"; "X"; "C"; "V"; "B"; "N"; "M"] ]%string.
End Page.

(** ** The two-pass algorithm as the specification words it (section 4.1)

    Marks are kept per position: [None] while a position is unmarked. *)
Module Reference.
(** The number of positions below [n] that satisfy [p]. *)
Definition positions (n : nat) (p : nat → bool) : nat :=
  length (List.filter p (seq 0 n)).

(** Pass 1: position i is marked correct if guess[i] == solution[i]. *)
Definition pass1 (guess solution : JsString) : list (option Feedback) :=
  imap (λ i g, if decide (solution !! i = Some g) then Some correct else None) guess.

(** Total occurrences of L in the solution. *)
Definition solutionCount (solution : JsString) (L : codeUnit) : nat :=
  positions (length solution) (λ j, bool_decide (solution !! j = Some L)).

(** Occurrences of L marked correct anywhere (from pass 1). *)
Definition correctCount (guess : JsString) (marks1 : list (option Feedback))
    (L : codeUnit) : nat :=
  positions (length guess)
    (λ j, bool_decide (guess !! j = Some L) &&
          bool_decide (marks1 !! j = Some (Some correct))).

(** Occurrences of L at positions before i already marked present. *)
Definition alreadyPresentCount (guess : JsString) (marks : list (option Feedback))
    (i : nat) (L : codeUnit) : nat :=
  positions i
    (λ j, bool_decide (guess !! j = Some L) &&
          bool_decide (marks !! j = Some (Some present))).

(** Pass 2 at position i, left to right over the positions not correct. *)
Definition pass2At (guess solution : JsString) (marks1 marks : list (option Feedback))
    (i : nat) : list (option Feedback) :=
  match guess !! i with
  | None => marks
  | Some L =>
      if decide (marks !! i = Some (Some correct)) then marks
      else if bool_decide (L ∈ solution) &&
              bool_decide (correctCount guess marks1 L + alreadyPresentCount guess marks i L
                           < solutionCount solution L)
      then <[i := Some present]> marks
      else <[i := Some absent]> marks
  end.

Definition evaluate (guess solution : JsString) : list (option Feedback) :=
  let marks1 := pass1 guess solution in
  foldl (pass2At guess solution marks1) marks1 (seq 0 (length guess)).
End Reference.

(** ** Notions the statements use *)

(** The state of the second loop after [n] rounds. *)
Definition secondPassPrefix (solution guess : JsString) (n : nat) :
    Result (list (option Feedback)) :=
  foldl (λ acc i,
           match acc with
           | Ok fb => secondPassBody solution guess solution fb i
           | Throw e => Throw e
           end)
        (Ok (firstPass guess solution)) (seq 0 n).

(** Two arrays read alike at every index. *)
Definition agree (fb marks : list (option Feedback)) : Prop :=
  ∀ j, arrayGet fb j = arrayGet marks j.

(** The reference marks after pass 2 has visited the first [n] positions. *)
Definition referencePrefix (guess solution : JsString) (n : nat) : list (option Feedback) :=
  foldl (Reference.pass2At guess solution (Reference.pass1 guess solution))
        (Reference.pass1 guess solution) (seq 0 n).

(** The mark of position [j], holding letter [L], read off the marks [M] of
    the positions before it. *)
Definition markAt (guess solution : JsString) (M : list (option Feedback))
    (j : nat) (L : codeUnit) : Feedback :=
  if decide (guess !! j = solution !! j) then correct
  else if bool_decide (L ∈ solution) &&
          bool_decide (Reference.correctCount guess (Reference.pass1 guess solution) L
                       + Reference.alreadyPresentCount guess M j L
                       < Reference.solutionCount solution L)
  then present else absent.

(** A position of the history that holds the letter with the given mark. *)
Definition markedIn `{CaseMapping} (guesses : list Page.Guess) (letter : JsString)
    (f : Feedback) : Prop :=
  ∃ g i, g ∈ guesses ∧ Page.letterAt g i letter = true ∧ Page.feedbackAt g i = Some f.

(** The checks of [checkGuess] in the order the code makes them; [None] when
    the submission passes them all. The game state is read after the puzzle
    is resolved, which does not touch the game states. *)
Definition firstRejection `{CaseMapping} (req : Request) (date rawGuess : JsString)
    (db : DB) : option Error :=
  match auth req with
  | None => Some NotAuthenticated
  | Some identity =>
      if bool_decide (getPuzzleFromDb date db = None ∧ fetch req date = None)
      then Some FailedToFetchPuzzle
      else if bool_decide (length (toLowerCase rawGuess) ≠ 5)
      then Some GuessMustBe5Letters
      else
        match getGameStateInternal (subject identity) date db with
        | None => None
        | Some st =>
            if bool_decide (6 ≤ length (GameState.guesses st))
            then Some MaximumGuessesReached
            else if GameState.isGameOver st then Some GameIsAlreadyOver
            else None
        end
  end.

(** The document [storePuzzle] inserts. *)
Definition newPuzzle (date : JsString) (data : PuzzleData) : Wordle.t :=
  {| Wordle.date := date;
     Wordle.solution := pd_solution data;
     Wordle.puzzleId := pd_id data;
     Wordle.printDate := pd_print_date data;
     Wordle.daysSinceLaunch := pd_days_since_launch data |}.

(** At most one puzzle is stored per date. *)
Definition uniquePuzzles (db : DB) : Prop :=
  NoDup (Wordle.date <$> wordles db).

(** The key of a game state document, and "at most one per key". *)
Definition gameKey (gs : GameState.t) : JsString * JsString :=
  (GameState.userId gs, GameState.date gs).

Definition uniqueGames (db : DB) : Prop :=
  NoDup (gameKey <$> wordleGameStates db).

(** A stored guess as the page holds it: [setGuesses(savedGameState.guesses)]
    takes the documents' guesses as they are. *)
Definition pageGuess (g : Guess.t) : Page.Guess :=
  {| Page.word := Guess.word g; Page.feedback := Some <$> Guess.feedback g |}.

(** The ASCII letters: a-z and A-Z. *)
Definition isLowerLetter (c : codeUnit) : bool := bool_decide (97 ≤ c ≤ 122)%N.
Definition isUpperLetter (c : codeUnit) : bool := bool_decide (65 ≤ c ≤ 90)%N.

(** A stored guess that [checkGuess] produced against [solution] from a
    guess of five ASCII letters: [guess] is the lower-cased guess. *)
Definition scoredAgainst (solution : JsString) (g : Guess.t) : Prop :=
  ∃ guess, length guess = 5 ∧
    Forall (λ c, isLowerLetter c = true) guess ∧
    Guess.word g = toUpperCase (CaseMapping := asciiCase) guess ∧
    computeFeedback solution guess = Ok (Guess.feedback g).

(** ** The game page: input and submission (WordlePage)

    The state the component keeps with [useState] and the handlers that
    change it. An event is handled after the render that followed the event
    before it, so a handler reads what its predecessors wrote, and
    [isGameOverRef.current], which an effect copies from [isGameOver] after
    every render, reads as [isGameOver]. [shareSuccess] belongs to the
    clipboard handler and is left out. *)
Module Controller.
Record State := {
  guesses : list Page.Guess;
  currentGuess : JsString;
  isGameOver : bool;
  isLoading : bool;
  error : option JsString;
  todayDate : JsString
}.

(** The arguments of a call of the [checkGuess] action. *)
Record Submission := { date : JsString; guess : JsString }.

(** What the call comes back with: the result, or the message of the error. *)
Inductive Outcome :=
  | Succeeded (result : Output)
  | Failed (message : JsString).

Record KeyboardEvent := {
  key : JsString;
  metaKey : bool;
  ctrlKey : bool;
  altKey : bool
}.

Definition initial : State :=
  {| guesses := []; currentGuess := []; isGameOver := false; isLoading := false;
     error := None; todayDate := [] |}.

Definition setCurrentGuess (f : JsString → JsString) (st : State) : State :=
  {| guesses := guesses st; currentGuess := f (currentGuess st);
     isGameOver := isGameOver st; isLoading := isLoading st;
     error := error st; todayDate := todayDate st |}.

(** [key.match(/[a-zA-Z]/)]: some code unit of the key is an ASCII letter. *)
Definition matchesLetter (key : JsString) : bool :=
  existsb (λ c, isLowerLetter c || isUpperLetter c) key.

(** [handleSubmitGuess] up to the call of the action: nothing happens for an
    input that is not 5 units long, before the date is known, or when the
    game is over; otherwise the page is loading and the call is made. *)
Definition handleSubmitGuess (st : State) : State * option Submission :=
  if bool_decide (length (currentGuess st) ≠ 5) || bool_decide (todayDate st = [])
  then (st, None)
  else if isGameOver st then (st, None)
  else ({| guesses := guesses st; currentGuess := currentGuess st;
           isGameOver := isGameOver st; isLoading := true;
           error := None; todayDate := todayDate st |},
        Some {| date := todayDate st; guess := currentGuess st |}).

(** [handleSubmitGuess] after the call: on success the scored guess is
    appended, the input cleared and the game-over flag taken over; on failure
    the message is shown; in both cases loading ends. [sent] is the input the
    call was made with. *)
Definition handleSubmitSettled `{CaseMapping} (sent : JsString) (outcome : Outcome)
    (st : State) : State :=
  match outcome with
  | Succeeded (Build_Output resultFeedback _ resultIsGameOver) =>
      {| guesses := guesses st ++
           [ {| Page.word := toUpperCase sent;
                Page.feedback := Some <$> resultFeedback |} ];
         currentGuess := [];
         isGameOver := resultIsGameOver;
         isLoading := false;
         error := error st; todayDate := todayDate st |}
  | Failed message =>
      {| guesses := guesses st; currentGuess := currentGuess st;
         isGameOver := isGameOver st; isLoading := false;
         error := Some message; todayDate := todayDate st |}
  end.

Definition handleKeyPress `{CaseMapping} (key : JsString) (st : State) :
    State * option Submission :=
  if isGameOver st || isLoading st then (st, None)
  else if bool_decide (key = js "Enter") then
    if bool_decide (length (currentGuess st) = 5) then handleSubmitGuess st
    else (st, None)
  else if bool_decide (key = js "Backspace") then
    (* prev.slice(0, -1) *)
    (setCurrentGuess (λ prev, take (length prev - 1) prev) st, None)
  else if bool_decide (length key = 1) && matchesLetter key &&
          bool_decide (length (currentGuess st) < 5) then
    (setCurrentGuess (λ prev, prev ++ toUpperCase key) st, None)
  else (st, None).

(** The listener on [window]: keys pressed with a modifier and keys other
    than Enter, Backspace and single letters are ignored. *)
Definition handleKeyDown `{CaseMapping} (e : KeyboardEvent) (st : State) :
    State * option Submission :=
  if metaKey e || ctrlKey e || altKey e then (st, None)
  else if bool_decide (key e = js "Enter") || bool_decide (key e = js "Backspace") ||
          (bool_decide (length (key e) = 1) && matchesLetter (key e))
  then handleKeyPress (key e) st
  else (st, None).

(** The effect on [savedGameState]: a stored game replaces the history and
    the game-over flag; the input is not restored. *)
Definition loadSaved (saved : option View.t) (st : State) : State :=
  match saved with
  | None => st
  | Some view =>
      {| guesses := pageGuess <$> View.guesses view;
         currentGuess := currentGuess st;
         isGameOver := View.isGameOver view;
         isLoading := isLoading st;
         error := error st; todayDate := todayDate st |}
  end.

(** What can happen to the page: the date becomes known, a stored game
    arrives, a key goes down, a button of the on-screen keyboard is clicked
    (a disabled button does not fire), a call of the action settles. *)
Inductive Event :=
  | DateKnown (today : JsString)
  | Loaded (saved : option View.t)
  | KeyDown (e : KeyboardEvent)
  | ClickLetter (letter : JsString)
  | ClickEnter
  | ClickBackspace
  | Settled (sent : JsString) (outcome : Outcome).

Definition step `{CaseMapping} (ev : Event) (st : State) : State * option Submission :=
  match ev with
  | DateKnown today =>
      ({| guesses := guesses st; currentGuess := currentGuess st;
          isGameOver := isGameOver st; isLoading := isLoading st;
          error := error st; todayDate := today |}, None)
  | Loaded saved => (loadSaved saved st, None)
  | KeyDown e => handleKeyDown e st
  | ClickLetter letter =>
      if isGameOver st || isLoading st then (st, None)
      else handleKeyPress letter st
  | ClickEnter =>
      if bool_decide (length (currentGuess st) ≠ 5) || isGameOver st || isLoading st ||
         bool_decide (6 ≤ length (guesses st))
      then (st, None)
      else handleKeyPress (js "Enter") st
  | ClickBackspace =>
      if bool_decide (length (currentGuess st) = 0) || isGameOver st || isLoading st
      then (st, None)
      else handleKeyPress (js "Backspace") st
  | Settled sent outcome => (handleSubmitSettled sent outcome st, None)
  end.

(** The page after a sequence of events, and the calls made on the way. *)
Fixpoint run `{CaseMapping} (events : list Event) (st : State) :
    State * list Submission :=
  match events with
  | [] => (st, [])
  | ev :: rest =>
      let '(st1, call) := step ev st in
      let '(st2, calls) := run rest st1 in
      (st2, option_list call ++ calls)
  end.

(** A key pressed without a modifier. *)
Definition plainKey (key : JsString) : KeyboardEvent :=
  {| key := key; metaKey := false; ctrlKey := false; altKey := false |}.
End Controller.

(** The host's upper-casing of a single ASCII letter is the ASCII capital. *)
Definition upperCasesLetters `{CaseMapping} : Prop :=
  ∀ c, isLowerLetter c || isUpperLetter c = true → toUpperCase [c] = [asciiUpper c].

(** The input holds at most five capitals. *)
Definition inputOk (st : Controller.State) : Prop :=
  length (Controller.currentGuess st) ≤ 5 ∧
  Forall (λ c, isUpperLetter c = true) (Controller.currentGuess st).

(** ** A concrete deployment for the scenarios *)

Module Scenario.
Definition today : JsString := js "2025-01-15".

(** One registered player: a Convex document id and the Clerk id. *)
Definition player : User.t :=
  {| User._id := js "j572k9d3x8"; User.name := js "Ada";
     User.externalId := js "user_2ada" |}.

Definition puzzleLight : Wordle.t :=
  {| Wordle.date := today; Wordle.solution := js "LIGHT"; Wordle.puzzleId := 1304;
     Wordle.printDate := today; Wordle.daysSinceLaunch := 1305 |}.

Definition freshDb : DB :=
  {| users := [player]; wordles := [puzzleLight]; wordleGameStates := [] |}.

Definition noPuzzleDb : DB :=
  {| users := [player]; wordles := []; wordleGameStates := [] |}.

Definition signedIn : Request :=
  {| auth := Some {| subject := js "user_2ada" |}; fetch := λ _, None |}.

(** The puzzle source answers with the day's puzzle. *)
Definition signedInOnline : Request :=
  {| auth := Some {| subject := js "user_2ada" |};
     fetch := λ _, Some {| pd_solution := js "light"; pd_id := 1304;
                           pd_print_date := today; pd_days_since_launch := 1305 |} |}.

Definition run (req : Request) (rawGuess : string) (db : DB) : DB * Result Output :=
  checkGuess (H := asciiCase) (H0 := usersByExternalId) req today (js rawGuess) db.

(** Consecutive submissions, each against the database the one before left. *)
Fixpoint submitAll (req : Request) (rawGuesses : list string) (db : DB) :
    DB * list (Result Output) :=
  match rawGuesses with
  | [] => (db, [])
  | rawGuess :: rest =>
      let '(db1, r) := run req rawGuess db in
      let '(db2, rs) := submitAll req rest db1 in
      (db2, r :: rs)
  end.

(** What the page of the signed-in player loads. *)
Definition load (req : Request) (db : DB) : Result (option View.t) :=
  getGameState (H := usersByExternalId) (auth req) today db.

Definition nightGuess : Guess.t :=
  {| Guess.word := js "NIGHT";
     Guess.feedback := [absent; correct; correct; correct; correct] |}.

Definition lightGuess : Guess.t :=
  {| Guess.word := js "LIGHT";
     Guess.feedback := [correct; correct; correct; correct; correct] |}.

(** The player has lost the day's game: six guesses stored under the
    player's document id, as [saveGameStateInternal] keys them and
    [getGameState] reads them. *)
Definition lostGame : GameState.t :=
  {| GameState.userId := User._id player; GameState.date := today;
     GameState.guesses := replicate 6 nightGuess; GameState.isGameOver := true |}.

Definition lostDb : DB :=
  {| users := [player]; wordles := [puzzleLight]; wordleGameStates := [lostGame] |}.

(** Game states stored under the caller's subject, the key [checkGuess]
    looks up: a lost game and a won game. *)
Definition foundLostDb : DB :=
  {| users := [player]; wordles := [puzzleLight];
     wordleGameStates :=
       [ {| GameState.userId := js "user_2ada"; GameState.date := today;
            GameState.guesses := replicate 6 nightGuess;
            GameState.isGameOver := true |} ] |}.

(** A user document whose id is the subject itself, and a game in progress
    stored under it. *)
Definition sameKeyPlayer : User.t :=
  {| User._id := js "user_2ada"; User.name := js "Ada";
     User.externalId := js "user_2ada" |}.

Definition sameKeyDb : DB :=
  {| users := [sameKeyPlayer]; wordles := [puzzleLight];
     wordleGameStates :=
       [ {| GameState.userId := js "user_2ada"; GameState.date := today;
            GameState.guesses := replicate 5 nightGuess;
            GameState.isGameOver := false |} ] |}.

Definition foundWonDb : DB :=
  {| users := [player]; wordles := [puzzleLight];
     wordleGameStates :=
       [ {| GameState.userId := js "user_2ada"; GameState.date := today;
            GameState.guesses := [lightGuess];
            GameState.isGameOver := true |} ] |}.

(** The player opens the page, types "night" and presses Enter. *)
Definition typeNight : list Controller.Event :=
  Controller.DateKnown today ::
  ((λ c, Controller.KeyDown (Controller.plainKey [c])) <$> js "night") ++
  [Controller.KeyDown (Controller.plainKey (js "Enter"))].

Definition nightCall : Controller.Submission :=
  {| Controller.date := today; Controller.guess := js "NIGHT" |}.

(** The page once the date is known, and the page showing six wrong guesses
    of a game that is not over, with a seventh typed. *)
Definition opened : Controller.State :=
  (Controller.run (H := asciiCase) [Controller.DateKnown today] Controller.initial).1.

Definition sixShown : Controller.State :=
  {| Controller.guesses := replicate 6 (pageGuess nightGuess);
     Controller.currentGuess := js "NIGHT";
     Controller.isGameOver := false; Controller.isLoading := false;
     Controller.error := None; Controller.todayDate := today |}.
End Scenario.

(** * Properties *)

(** ** Arrays written by index *)

Section arrays.
Context {A : Type}.
Implicit Types (arr : list (option A)) (v : A).

Lemma arrayGet_arraySet arr i v j :
  arrayGet (arraySet i v arr) j = if decide (j = i) then Some v else arrayGet arr j.
Proof.
  unfold arrayGet, arraySet. case_decide as Hlen.
  - destruct (decide (j = i)) as [->|Hne].
    + by rewrite list_lookup_insert_eq.
    + by rewrite list_lookup_insert_ne.
  - destruct (decide (j < length arr)) as [Hj|Hj].
    + rewrite lookup_app_l by done. case_decide; [lia|done].
    + rewrite lookup_app_r by lia.
      destruct (decide (j - length arr < i - length arr)) as [Hlt|Hge].
      * rewrite lookup_app_l by (rewrite length_replicate; lia).
        rewrite lookup_replicate_2 by done.
        rewrite (lookup_ge_None_2 arr j) by lia. case_decide; [lia|done].
      * rewrite lookup_app_r by (rewrite length_replicate; lia).
        rewrite length_replicate.
        destruct (decide (j = i)) as [->|Hne].
        -- by replace (i - length arr - (i - length arr)) with 0 by lia.
        -- rewrite (lookup_ge_None_2 arr j) by lia.
           destruct (j - length arr - (i - length arr)) as [|m] eqn:Hm; [lia|done].
Qed.

Lemma length_arraySet arr i v :
  length (arraySet i v arr) = length arr `max` S i.
Proof.
  unfold arraySet. case_decide.
  - rewrite length_insert. lia.
  - rewrite !length_app, length_replicate. simpl. lia.
Qed.

Lemma arrayGet_insert arr i v j :
  i < length arr →
  arrayGet (<[i := Some v]> arr) j = if decide (j = i) then Some v else arrayGet arr j.
Proof.
  intros Hi. unfold arrayGet. case_decide as Hj.
  - subst. by rewrite list_lookup_insert_eq.
  - by rewrite list_lookup_insert_ne.
Qed.

(** Two arrays of one length that read alike are the same array, provided
    neither has a hole. *)
Lemma array_eq_of_get arr1 arr2 :
  length arr1 = length arr2 →
  (∀ j, j < length arr1 → is_Some (arrayGet arr1 j)) →
  (∀ j, arrayGet arr1 j = arrayGet arr2 j) →
  arr1 = arr2.
Proof.
  intros Hlen Hsome Hget. apply list_eq. intros j.
  destruct (decide (j < length arr1)) as [Hj|Hj].
  - specialize (Hsome j Hj). specialize (Hget j). unfold arrayGet in *.
    destruct (lookup_lt_is_Some_2 arr1 j Hj) as [x Hx].
    destruct (lookup_lt_is_Some_2 arr2 j ltac:(lia)) as [y Hy].
    rewrite Hx, Hy in *. simpl in *. destruct Hsome as [a Ha]. subst x.
    by rewrite Hget.
  - rewrite !lookup_ge_None_2; [done|lia..].
Qed.

Lemma denseArray_Ok arr :
  (∀ j, j < length arr → is_Some (arrayGet arr j)) →
  ∃ l, denseArray arr = Ok l ∧ arr = Some <$> l.
Proof.
  induction arr as [|[a|] arr IH]; intros Hsome.
  - by exists [].
  - destruct IH as (l & Hl & ->).
    { intros j Hj. apply (Hsome (S j)). simpl. lia. }
    exists (a :: l). simpl. by rewrite Hl.
  - destruct (Hsome 0) as [? Hx]; [simpl; lia|]. discriminate Hx.
Qed.
End arrays.

(** ** Counting positions *)

Section positions.
Import Reference.

Lemma positions_S n p :
  positions (S n) p = positions n p + (if p n then 1 else 0).
Proof.
  unfold positions. rewrite seq_S, List.filter_app, length_app. simpl.
  by destruct (p n).
Qed.

Lemma positions_succ n p :
  positions (S n) p = (if p 0 then 1 else 0) + positions n (λ j, p (S j)).
Proof.
  induction n as [|n IH].
  - unfold positions. simpl. by destruct (p 0).
  - rewrite positions_S, IH, (positions_S n). lia.
Qed.

Lemma positions_ext n p q :
  (∀ j, j < n → p j = q j) → positions n p = positions n q.
Proof.
  induction n as [|n IH]; intros Hpq; [done|].
  rewrite !positions_S, IH, Hpq by (intros; auto with lia). done.
Qed.

Lemma positions_mono n m p : n ≤ m → positions n p ≤ positions m p.
Proof.
  induction 1 as [|m _ IH]; [done|]. rewrite positions_S. lia.
Qed.

Lemma positions_pos n p j : j < n → p j = true → 0 < positions n p.
Proof.
  intros Hj Hp. pose proof (positions_mono (S j) n p ltac:(lia)) as Hle.
  rewrite positions_S, Hp in Hle. lia.
Qed.

(** [filter] with an index callback counts the positions its callback accepts. *)
Lemma length_filterFrom {A} (f : A → nat → bool) k (l : list A) :
  length (filterFrom f k l) =
  positions (length l) (λ j, from_option (λ x, f x (k + j)) false (l !! j)).
Proof.
  revert k. induction l as [|x l IH]; intros k; [done|].
  cbn [length]. rewrite positions_succ. cbn [filterFrom lookup list_lookup from_option].
  replace (k + 0) with k by lia.
  rewrite (positions_ext _ _ (λ j, from_option (λ y, f y (S k + j)) false (l !! j))).
  2:{ intros j _. simpl. destruct (l !! j); simpl; [|done]. f_equal. lia. }
  rewrite <- IH. destruct (f x k); simpl; lia.
Qed.

Lemma length_jsFilter {A} (f : A → nat → bool) (l : list A) :
  length (jsFilter f l) =
  positions (length l) (λ j, from_option (λ x, f x j) false (l !! j)).
Proof. unfold jsFilter. by rewrite length_filterFrom. Qed.

Lemma filter_filterFrom {A} (q : A → bool) k (l : list A) :
  List.filter q l = filterFrom (λ x _, q x) k l.
Proof.
  revert k. induction l as [|x l IH]; intros k; [done|].
  simpl. by rewrite <- (IH (S k)).
Qed.

Lemma length_filter_positions {A} (q : A → bool) (l : list A) :
  length (List.filter q l) =
  positions (length l) (λ j, from_option q false (l !! j)).
Proof. by rewrite (filter_filterFrom q 0), length_filterFrom. Qed.

Lemma foldl_add_indicator {A} (f : A → nat → bool) k a (l : list A) :
  foldl Nat.add a (imap (λ idx x, if f x (k + idx) then 1 else 0) l) =
  a + length (filterFrom f k l).
Proof.
  revert k a. induction l as [|x l IH]; intros k a; [simpl; lia|].
  rewrite imap_cons. cbn [foldl filterFrom].
  rewrite (imap_ext _ (λ idx y, if f y (S k + idx) then 1 else 0)).
  2:{ intros idx y _. simpl. by replace (k + S idx) with (S (k + idx)) by lia. }
  rewrite IH. replace (k + 0) with k by lia. destruct (f x k); simpl; lia.
Qed.

Lemma mapReduceSum_indicator {A} (f : A → nat → bool) (l : list A) :
  mapReduceSum (λ x idx, if f x idx then 1 else 0) l =
  positions (length l) (λ j, from_option (λ x, f x j) false (l !! j)).
Proof.
  unfold mapReduceSum. rewrite <- length_jsFilter. unfold jsFilter.
  exact (foldl_add_indicator f 0 0 l).
Qed.
End positions.

(** ** The feedback evaluation *)

Lemma mjoin_Some_iff {A} (o : option (option A)) (a : A) :
  mjoin o = Some a ↔ o = Some (Some a).
Proof. destruct o as [[?|]|]; simpl; naive_solver. Qed.

Lemma includesString_singleton (hay : JsString) (c : codeUnit) :
  includesString hay [c] = bool_decide (c ∈ hay).
Proof.
  induction hay as [|b hay IH].
  - cbn [includesString startsWith orb]. symmetry.
    apply bool_decide_eq_false_2. by intros ?%elem_of_nil.
  - cbn [includesString startsWith]. rewrite IH, andb_true_r.
    destruct (decide (c = b)) as [->|Hne].
    + rewrite bool_decide_eq_true_2 by done. simpl. symmetry.
      apply bool_decide_eq_true. by left.
    + rewrite (bool_decide_eq_false_2 (c = b)) by done. simpl.
      apply bool_decide_ext. rewrite elem_of_cons. intuition congruence.
Qed.

Lemma solutionCount_filter (solution : JsString) (c : codeUnit) :
  length (List.filter (λ u, bool_decide (u = c)) solution) =
  Reference.solutionCount solution c.
Proof.
  rewrite length_filter_positions. unfold Reference.solutionCount.
  apply positions_ext. intros j _. destruct (solution !! j) as [u|]; simpl.
  - apply bool_decide_ext. naive_solver.
  - done.
Qed.

Lemma matchCount_literal (solution : JsString) (c : codeUnit) :
  regexpLiteral c = true →
  matchCount solution (Some c) = Ok (Reference.solutionCount solution c).
Proof.
  unfold regexpLiteral, matchCount. intros [Hthrows Hspecial]%andb_true_iff.
  apply negb_true_iff in Hthrows, Hspecial. rewrite Hthrows.
  unfold regexpAssertionOrWildcard in Hspecial.
  apply bool_decide_eq_false in Hspecial.
  rewrite !(bool_decide_eq_false_2 (c = _)) by (intros ->; apply Hspecial; repeat constructor).
  simpl. by rewrite solutionCount_filter.
Qed.

Lemma matchCount_no_throw (solution : JsString) (c : codeUnit) :
  regexpThrows c = false → ∃ n, matchCount solution (Some c) = Ok n.
Proof.
  unfold matchCount. intros ->. repeat case_match; eauto.
Qed.

Section evaluation.
Variables solution guess : JsString.
Hypothesis guess_length : length guess = 5.

Local Abbreviation eqAt j := (guess !! j = solution !! j).

(** The array after the first [n] rounds of the first loop. *)
Lemma firstPass_prefix n :
  let fb := foldl (λ feedback i,
              if decide (eqAt i) then arraySet i correct feedback else feedback)
              [] (seq 0 n) in
  length fb ≤ n ∧
  ∀ j, arrayGet fb j = if decide (j < n ∧ eqAt j) then Some correct else None.
Proof.
  induction n as [|n [IHlen IHget]]; cbv zeta in *.
  - split; [done|]. intros j. rewrite decide_False by lia.
    by destruct j.
  - rewrite seq_S, foldl_snoc. cbn [Nat.add].
    set (fb := foldl _ _ _) in *. destruct (decide (eqAt n)) as [Heq|Hne].
    + split; [rewrite length_arraySet; lia|].
      intros j. rewrite arrayGet_arraySet, IHget.
      destruct (decide (j = n)) as [->|?].
      * by rewrite decide_True by (split; [lia|done]).
      * apply decide_ext. intuition lia.
    + split; [lia|]. intros j. rewrite IHget. apply decide_ext.
      split; [intuition lia|]. intros [? ?]. split; [|done].
      destruct (decide (j = n)); [congruence|lia].
Qed.

Lemma firstPass_length : length (firstPass guess solution) ≤ 5.
Proof. apply (firstPass_prefix 5). Qed.

Lemma firstPass_get j :
  arrayGet (firstPass guess solution) j =
  if decide (j < 5 ∧ eqAt j) then Some correct else None.
Proof. apply (firstPass_prefix 5). Qed.

(** *** What every round of the second loop preserves *)

(** Nothing is thrown at a letter the constructor accepts; the round writes
    slot [i] only, and only when it is not marked correct. *)
Lemma secondPassBody_frame feedback i L :
  guess !! i = Some L →
  regexpThrows L = false →
  ∃ feedback',
    secondPassBody solution guess solution feedback i = Ok feedback' ∧
    length feedback' = (if decide (arrayGet feedback i = Some correct)
                        then length feedback else length feedback `max` S i) ∧
    (∀ j, j ≠ i → arrayGet feedback' j = arrayGet feedback j) ∧
    (arrayGet feedback i = Some correct → arrayGet feedback' i = Some correct) ∧
    (arrayGet feedback i ≠ Some correct →
       arrayGet feedback' i = Some present ∨ arrayGet feedback' i = Some absent).
Proof.
  intros HL Hthrows. unfold secondPassBody. rewrite HL.
  destruct (matchCount_no_throw solution L Hthrows) as [n ->].
  case_decide as Hc.
  - exists feedback. naive_solver.
  - match goal with |- context [if ?b then _ else _] => destruct b end;
      eexists; (split; [reflexivity|]);
      rewrite length_arraySet;
      (split; [done|]); (split; [|split]);
      try (intros j Hj; rewrite arrayGet_arraySet; by rewrite decide_False);
      try done;
      intros _; rewrite arrayGet_arraySet, decide_True by done; eauto.
Qed.


Lemma secondPassPrefix_S n :
  secondPassPrefix solution guess (S n) =
  match secondPassPrefix solution guess n with
  | Ok fb => secondPassBody solution guess solution fb n
  | Throw e => Throw e
  end.
Proof. unfold secondPassPrefix. by rewrite seq_S, foldl_snoc. Qed.

Lemma secondPassPrefix_frame n :
  n ≤ 5 →
  Forall (λ c, regexpThrows c = false) guess →
  ∃ fb, secondPassPrefix solution guess n = Ok fb ∧
    length fb ≤ 5 ∧
    (∀ j, arrayGet fb j = Some correct ↔ j < 5 ∧ eqAt j) ∧
    (∀ j, j < n → is_Some (arrayGet fb j)).
Proof.
  intros Hn Hok. induction n as [|n IH].
  - exists (firstPass guess solution). split; [done|].
    split; [apply firstPass_length|]. split; [|lia].
    intros j. rewrite firstPass_get. case_decide; [tauto|].
    split; [discriminate|tauto].
  - destruct IH as (fb & Hfb & Hlen & Hcorrect & Hsome); [lia|].
    destruct (lookup_lt_is_Some_2 guess n ltac:(lia)) as [L HL].
    assert (regexpThrows L = false) as HLok.
    { rewrite Forall_lookup in Hok. by apply (Hok n). }
    destruct (secondPassBody_frame fb n L HL HLok)
      as (fb' & Hstep & Hlen' & Hother & Hkeep & Hmark).
    exists fb'. rewrite secondPassPrefix_S, Hfb. split; [done|].
    split; [case_decide; lia|]. split.
    + intros j. destruct (decide (j = n)) as [->|Hne].
      * destruct (decide (arrayGet fb n = Some correct)) as [Hc|Hc].
        -- rewrite <- Hcorrect. split; [done|]. intros _. by apply Hkeep.
        -- rewrite <- Hcorrect.
           destruct (Hmark Hc) as [Hm|Hm]; rewrite Hm; split; [done|tauto|done|tauto].
      * by rewrite Hother.
    + intros j Hj. destruct (decide (j = n)) as [->|Hne].
      * destruct (decide (arrayGet fb n = Some correct)) as [Hc|Hc].
        -- rewrite (Hkeep Hc). eauto.
        -- destruct (Hmark Hc) as [Hm|Hm]; rewrite Hm; eauto.
      * rewrite Hother by done. apply Hsome. lia.
Qed.
End evaluation.

(** ** The evaluation against the two-pass reference *)

Section refinement.
Import Reference.
Variables solution guess : JsString.
Hypothesis guess_length : length guess = 5.
Hypothesis solution_length : length solution = 5.

Local Abbreviation eqAt j := (guess !! j = solution !! j).
Local Abbreviation marks1 := (pass1 guess solution).


Lemma pass1_get j :
  arrayGet marks1 j = if decide (j < 5 ∧ eqAt j) then Some correct else None.
Proof.
  unfold arrayGet, pass1. rewrite list_lookup_imap.
  destruct (guess !! j) as [g|] eqn:Hg; simpl.
  - apply lookup_lt_Some in Hg as Hj.
    destruct (decide (solution !! j = Some g)) as [Hs|Hs].
    + rewrite decide_True; [done|]. split; [lia|congruence].
    + rewrite decide_False; [done|]. intros [_ Heq]. congruence.
  - apply lookup_ge_None in Hg. rewrite decide_False; [done|lia].
Qed.

Lemma pass1_correct_iff j :
  marks1 !! j = Some (Some correct) ↔ j < 5 ∧ eqAt j.
Proof.
  rewrite <- mjoin_Some_iff. fold (arrayGet marks1 j). rewrite pass1_get.
  case_decide; [tauto|]. split; [discriminate|tauto].
Qed.

Lemma pass1_length : length marks1 = 5.
Proof. unfold pass1. by rewrite length_imap. Qed.

Lemma firstPass_agree : agree (firstPass guess solution) marks1.
Proof. intros j. by rewrite firstPass_get, pass1_get. Qed.

Lemma correctCount_agree L :
  mapReduceSum (λ sol idx,
    if bool_decide (Some sol = Some L) && bool_decide (guess !! idx = Some L)
    then 1 else 0) solution
  = correctCount guess marks1 L.
Proof.
  rewrite (mapReduceSum_indicator
             (λ sol idx, bool_decide (Some sol = Some L) &&
                         bool_decide (guess !! idx = Some L))).
  unfold correctCount. rewrite solution_length, guess_length.
  apply positions_ext. intros j Hj.
  destruct (lookup_lt_is_Some_2 solution j ltac:(lia)) as [s Hs].
  destruct (lookup_lt_is_Some_2 guess j ltac:(lia)) as [g Hg].
  rewrite Hs. simpl.
  rewrite (bool_decide_ext (marks1 !! j = Some (Some correct)) (j < 5 ∧ eqAt j))
    by apply pass1_correct_iff.
  rewrite Hs, Hg.
  destruct (decide (g = L)) as [->|Hne].
  - rewrite (bool_decide_eq_true_2 (Some L = Some L)) by done.
    rewrite andb_true_r. simpl. apply bool_decide_ext. intuition congruence.
  - rewrite (bool_decide_eq_false_2 (Some g = Some L)) by congruence.
    by rewrite andb_false_r.
Qed.

Lemma alreadyPresent_agree fb marks i L :
  i ≤ 5 → agree fb marks →
  length (jsFilter (λ g idx,
    bool_decide (Some g = Some L) &&
    bool_decide (arrayGet fb idx = Some present)) (take i guess))
  = alreadyPresentCount guess marks i L.
Proof.
  intros Hi Hagree. rewrite length_jsFilter, length_take, guess_length.
  replace (i `min` 5) with i by lia. unfold alreadyPresentCount.
  apply positions_ext. intros j Hj.
  rewrite lookup_take_lt by done.
  destruct (lookup_lt_is_Some_2 guess j ltac:(lia)) as [g Hg].
  rewrite Hg. simpl. f_equal.
  apply bool_decide_ext. rewrite (Hagree j). unfold arrayGet.
  apply mjoin_Some_iff.
Qed.

(** One round of the second loop does what pass 2 does at that position. *)
Lemma secondPassBody_refines fb marks i L :
  i < 5 → guess !! i = Some L → regexpLiteral L = true →
  agree fb marks → length marks = 5 →
  ∃ fb', secondPassBody solution guess solution fb i = Ok fb' ∧
         agree fb' (pass2At guess solution marks1 marks i) ∧
         length (pass2At guess solution marks1 marks i) = 5.
Proof.
  intros Hi HL Hlit Hagree Hlen. unfold secondPassBody, pass2At. rewrite HL.
  rewrite (matchCount_literal solution L Hlit).
  rewrite correctCount_agree, (alreadyPresent_agree fb marks i L) by (done || lia).
  cbn [includes]. rewrite includesString_singleton.
  destruct (decide (arrayGet fb i = Some correct)) as [Hc|Hc].
  - rewrite decide_True.
    + by exists fb.
    + apply mjoin_Some_iff. by rewrite <- Hc, (Hagree i).
  - rewrite decide_False.
    2:{ intros Hm. apply Hc. rewrite (Hagree i). by apply mjoin_Some_iff. }
    match goal with |- context [if ?b then Ok _ else _] => destruct b end;
      eexists; (split; [reflexivity|]); (split; [|by rewrite length_insert]);
      intros j; rewrite arrayGet_arraySet, arrayGet_insert by lia;
      case_decide; [done|apply Hagree|done|apply Hagree].
Qed.


Lemma referencePrefix_S n :
  referencePrefix guess solution (S n) = pass2At guess solution marks1 (referencePrefix guess solution n) n.
Proof. unfold referencePrefix. by rewrite seq_S, foldl_snoc. Qed.

Lemma secondPassPrefix_refines n :
  n ≤ 5 →
  Forall (λ c, regexpLiteral c = true) guess →
  ∃ fb, secondPassPrefix solution guess n = Ok fb ∧
        agree fb (referencePrefix guess solution n) ∧ length (referencePrefix guess solution n) = 5.
Proof.
  intros Hn Hlit. induction n as [|n IH].
  - exists (firstPass guess solution).
    split; [done|]. split; [apply firstPass_agree|apply pass1_length].
  - destruct IH as (fb & Hfb & Hagree & Hlen); [lia|].
    destruct (lookup_lt_is_Some_2 guess n ltac:(lia)) as [L HL].
    assert (regexpLiteral L = true) as HLlit.
    { rewrite Forall_lookup in Hlit. by apply (Hlit n). }
    destruct (secondPassBody_refines fb (referencePrefix guess solution n) n L)
      as (fb' & Hstep & Hagree' & Hlen'); [lia|done..|].
    exists fb'. by rewrite secondPassPrefix_S, Hfb, referencePrefix_S.
Qed.

Lemma regexpLiteral_no_throw c : regexpLiteral c = true → regexpThrows c = false.
Proof. unfold regexpLiteral. intros [H _]%andb_true_iff. by apply negb_true_iff. Qed.

(** The array [checkGuess] computes is the list of marks of the reference. *)
Lemma computeFeedbackArray_refines :
  Forall (λ c, regexpLiteral c = true) guess →
  computeFeedbackArray solution guess = Ok (evaluate guess solution) ∧
  length (evaluate guess solution) = 5 ∧
  ∀ j, j < 5 → is_Some (arrayGet (evaluate guess solution) j).
Proof.
  intros Hlit.
  destruct (secondPassPrefix_refines 5 ltac:(lia) Hlit) as (fb & Hfb & Hagree & Hlen).
  destruct (secondPassPrefix_frame solution guess guess_length 5 ltac:(lia))
    as (fb2 & Hfb2 & Hlen2 & _ & Hsome).
  { eapply Forall_impl; [apply regexpLiteral_no_throw|exact Hlit]. }
  rewrite Hfb in Hfb2. injection Hfb2 as <-.
  assert (length fb = 5) as Hlenfb.
  { destruct (Hsome 4 ltac:(lia)) as [x Hx]. unfold arrayGet in Hx.
    destruct (fb !! 4) eqn:H4; [|done]. apply lookup_lt_Some in H4. lia. }
  assert (fb = evaluate guess solution) as Heq.
  { unfold evaluate. rewrite guess_length. fold (referencePrefix guess solution 5).
    apply array_eq_of_get; [lia| |done].
    intros j Hj. apply Hsome. lia. }
  unfold computeFeedbackArray, secondPass. fold (secondPassPrefix solution guess 5).
  rewrite Hfb, <- Heq. split; [done|]. split; [done|]. done.
Qed.

Lemma computeFeedback_refines :
  Forall (λ c, regexpLiteral c = true) guess →
  ∃ fb, computeFeedback solution guess = Ok fb ∧
        length fb = 5 ∧
        evaluate guess solution = Some <$> fb.
Proof.
  intros Hlit.
  destruct (computeFeedbackArray_refines Hlit) as (Harr & Hlen & Hsome).
  destruct (denseArray_Ok (evaluate guess solution)) as (l & Hl & Heq).
  { intros j Hj. apply Hsome. lia. }
  exists l. unfold computeFeedback. rewrite Harr, Hl. split; [done|].
  split; [|done]. rewrite Heq, length_fmap in Hlen. done.
Qed.

(** *** The marks in closed form *)


Lemma alreadyPresentCount_ext M M' j L :
  (∀ k, k < j → M !! k = M' !! k) →
  alreadyPresentCount guess M j L = alreadyPresentCount guess M' j L.
Proof.
  intros Hext. apply positions_ext. intros k Hk. by rewrite (Hext k Hk).
Qed.

Lemma markAt_ext M M' j L :
  (∀ k, k < j → M !! k = M' !! k) → markAt guess solution M j L = markAt guess solution M' j L.
Proof.
  intros Hext. unfold markAt. by rewrite (alreadyPresentCount_ext M M' j L).
Qed.

Lemma referencePrefix_marks n :
  n ≤ 5 →
  length (referencePrefix guess solution n) = 5 ∧
  (∀ j, n ≤ j → referencePrefix guess solution n !! j = marks1 !! j) ∧
  (∀ j L, j < n → guess !! j = Some L →
     referencePrefix guess solution n !! j = Some (Some (markAt guess solution (referencePrefix guess solution n) j L))).
Proof.
  intros Hn. induction n as [|n IH].
  - split; [apply pass1_length|]. split; [done|lia].
  - destruct IH as (Hlen & Hrest & Hdone); [lia|].
    rewrite referencePrefix_S. set (M := referencePrefix guess solution n) in *.
    destruct (lookup_lt_is_Some_2 guess n ltac:(lia)) as [Ln HLn].
    unfold pass2At. rewrite HLn.
    destruct (decide (M !! n = Some (Some correct))) as [Hc|Hc].
    + split; [done|]. split; [intros j Hj; apply Hrest; lia|].
      intros j L Hj HL. destruct (decide (j = n)) as [->|Hne].
      * rewrite Hc. do 2 f_equal. unfold markAt. rewrite decide_True; [done|].
        rewrite (Hrest n) in Hc by lia. by apply pass1_correct_iff in Hc as [_ ?].
      * apply Hdone; [lia|done].
    + assert (¬ eqAt n) as Hneq.
      { intros Heq. apply Hc. rewrite (Hrest n) by lia.
        apply pass1_correct_iff. split; [lia|done]. }
      set (v := if bool_decide (Ln ∈ solution) &&
                   bool_decide (correctCount guess marks1 Ln + alreadyPresentCount guess M n Ln
                                < solutionCount solution Ln)
                then present else absent).
      assert ((if bool_decide (Ln ∈ solution) &&
                  bool_decide (correctCount guess marks1 Ln + alreadyPresentCount guess M n Ln
                               < solutionCount solution Ln)
               then <[n := Some present]> M else <[n := Some absent]> M)
              = <[n := Some v]> M) as ->.
      { subst v. by destruct (_ && _). }
      split; [by rewrite length_insert|]. split.
      * intros j Hj. rewrite list_lookup_insert_ne by lia. apply Hrest. lia.
      * intros j L Hj HL. destruct (decide (j = n)) as [->|Hne].
        -- rewrite list_lookup_insert_eq by lia. do 2 f_equal.
           assert (L = Ln) as -> by congruence.
           rewrite (markAt_ext (<[n := Some v]> M) M).
           2:{ intros k Hk. by rewrite list_lookup_insert_ne by lia. }
           unfold markAt. rewrite decide_False by done. done.
        -- rewrite list_lookup_insert_ne by done.
           rewrite (markAt_ext (<[n := Some v]> M) M).
           2:{ intros k Hk. by rewrite list_lookup_insert_ne by lia. }
           apply Hdone; [lia|done].
Qed.

Lemma evaluate_marks j L :
  guess !! j = Some L →
  evaluate guess solution !! j = Some (Some (markAt guess solution (evaluate guess solution) j L)).
Proof.
  intros HL. unfold evaluate. rewrite guess_length. fold (referencePrefix guess solution 5).
  apply (referencePrefix_marks 5); [lia| |done].
  apply lookup_lt_Some in HL. lia.
Qed.

(** A letter the solution holds once cannot be marked present twice: the
    later of two occurrences that are not correct is never present. *)
Lemma evaluate_single_letter L p q :
  solutionCount solution L = 1 →
  p < q → guess !! p = Some L → guess !! q = Some L →
  evaluate guess solution !! p ≠ Some (Some correct) →
  evaluate guess solution !! q ≠ Some (Some present).
Proof.
  intros Hone Hpq Hp Hq Hpc Hqp. set (M := evaluate guess solution) in *.
  pose proof (evaluate_marks p L Hp) as HMp. fold M in HMp.
  pose proof (evaluate_marks q L Hq) as HMq. fold M in HMq.
  rewrite HMq in Hqp. injection Hqp as Hqp.
  rewrite HMp in Hpc.
  unfold markAt in Hqp, Hpc, HMp. rewrite Hone in *.
  destruct (decide (eqAt q)); [done|].
  destruct (decide (eqAt p)); [done|].
  destruct (bool_decide (L ∈ solution)) eqn:Hin; [|done]. simpl in *.
  destruct (bool_decide (_ + alreadyPresentCount guess M q L < 1)) eqn:Hq1; [|done].
  apply bool_decide_eq_true in Hq1.
  pose proof (positions_mono p q
    (λ j, bool_decide (guess !! j = Some L) && bool_decide (M !! j = Some (Some present)))
    ltac:(lia)) as Hmono.
  fold (alreadyPresentCount guess M p L) in Hmono.
  fold (alreadyPresentCount guess M q L) in Hmono.
  rewrite bool_decide_eq_true_2 in HMp by lia.
  assert (0 < alreadyPresentCount guess M q L); [|lia].
  apply (positions_pos q _ p Hpq).
  rewrite HMp, Hp. by rewrite !bool_decide_eq_true_2.
Qed.
End refinement.


(** ** The submission service *)

Section service.
Context `{CaseMapping} `{UsersModule}.

Lemma getPuzzleFromDb_None date db :
  getPuzzleFromDb date db = None →
  list_find (λ p, Wordle.date p = date) (wordles db) = None.
Proof. unfold getPuzzleFromDb. by destruct (list_find _ _). Qed.

(** Puzzle resolution, case by case. *)
Lemma resolveSolution_cases req date db :
  resolveSolution req date db =
  match getPuzzleFromDb date db with
  | Some p => (db, Ok (Wordle.solution p))
  | None =>
      match fetch req date with
      | None => (db, Throw FailedToFetchPuzzle)
      | Some data => (insertPuzzle date data db, Ok (pd_solution data))
      end
  end.
Proof.
  unfold resolveSolution, bind, runQuery, runMutation, ret, throw.
  destruct (getPuzzleFromDb date db) as [p|] eqn:Hp; [done|].
  destruct (fetch req date) as [data|]; [|done].
  unfold storePuzzle. by rewrite (getPuzzleFromDb_None _ _ Hp).
Qed.

(** Puzzle resolution touches the [wordles] table only. *)
Lemma resolveSolution_frame req date db db1 r :
  resolveSolution req date db = (db1, r) →
  users db1 = users db ∧ wordleGameStates db1 = wordleGameStates db.
Proof.
  rewrite resolveSolution_cases. intros Heq.
  destruct (getPuzzleFromDb date db); [by injection Heq as <- _|].
  destruct (fetch req date); by injection Heq as <- _.
Qed.

Lemma getGameStateInternal_frame userId date db db1 :
  wordleGameStates db1 = wordleGameStates db →
  getGameStateInternal userId date db1 = getGameStateInternal userId date db.
Proof. unfold getGameStateInternal. by intros ->. Qed.

(** [checkGuess] for a signed-in caller, stage by stage. *)
Lemma checkGuess_stages req date rawGuess db identity :
  auth req = Some identity →
  checkGuess req date rawGuess db =
  match resolveSolution req date db with
  | (db1, Throw e) => (db1, Throw e)
  | (db1, Ok puzzleSolution) =>
      let solution := toLowerCase puzzleSolution in
      let guess := toLowerCase rawGuess in
      if decide (length guess ≠ 5) then (db1, Throw GuessMustBe5Letters) else
      let currentState := getGameStateInternal (subject identity) date db1 in
      if from_option (λ st, bool_decide (6 ≤ length (GameState.guesses st))) false currentState
      then (db1, Throw MaximumGuessesReached) else
      if from_option GameState.isGameOver false currentState
      then (db1, Throw GameIsAlreadyOver) else
      match computeFeedback solution guess with
      | Throw e => (db1, Throw e)
      | Ok feedback =>
          let isCorrect := bool_decide (guess = solution) in
          let updatedGuesses :=
            from_option GameState.guesses [] currentState ++
            [ {| Guess.word := toUpperCase guess; Guess.feedback := feedback |} ] in
          let isGameOver := isCorrect || bool_decide (6 ≤ length updatedGuesses) in
          match saveGameStateInternal (auth req) date updatedGuesses isGameOver db1 with
          | Throw e => (db1, Throw e)
          | Ok db2 =>
              (db2, Ok {| feedback := feedback; isCorrect := isCorrect;
                          isGameOver := isGameOver |})
          end
      end
  end.
Proof.
  intros Hauth. unfold checkGuess. rewrite Hauth. unfold bind at 1.
  destruct (resolveSolution req date db) as [db1 [puzzleSolution|e]]; [|done].
  cbv zeta. case_decide; [done|].
  unfold bind at 1. unfold runQuery at 1.
  destruct (from_option _ false _); [done|].
  destruct (from_option _ false _); [done|].
  unfold computeFeedback, bind, liftResult, runMutation, ret, throw.
  destruct (computeFeedbackArray _ _) as [arr|e]; [|done].
  destruct (denseArray arr) as [fb|e]; [|done].
  by destruct (saveGameStateInternal _ _ _ _ _).
Qed.

(** A save rewrites or adds the document of the caller's user and leaves the
    other tables alone. *)
Lemma saveGameStateInternal_Ok a date guesses over db user :
  getCurrentUserOrThrow a db = Ok user →
  ∃ db', saveGameStateInternal a date guesses over db = Ok db' ∧
    users db' = users db ∧ wordles db' = wordles db ∧
    getGameStateInternal (User._id user) date db' =
      Some {| GameState.userId := User._id user; GameState.date := date;
              GameState.guesses := guesses; GameState.isGameOver := over |}.
Proof.
  intros Huser. unfold saveGameStateInternal. rewrite Huser.
  destruct (list_find _ (wordleGameStates db)) as [[i existing]|] eqn:Hfind.
  - eexists. split; [reflexivity|]. split; [done|]. split; [done|].
    unfold getGameStateInternal. cbn [wordleGameStates].
    apply list_find_Some in Hfind as (Hi & [Hu Hd] & Hleast).
    rewrite Hu, Hd.
    erewrite (proj2 (list_find_insert_Some _ _ i i _ _)); [done|].
    right. left. split_and!; [done|done|by eapply lookup_lt_Some|done|done|done].
  - eexists. split; [reflexivity|]. split; [done|]. split; [done|].
    unfold getGameStateInternal. cbn [wordleGameStates].
    rewrite list_find_app_r by done.
    erewrite (proj2 (list_find_Some _ [_] 0 _)); [done|].
    split_and!; [done|done|done|intros; lia].
Qed.

Lemma saveGameStateInternal_Throw a date guesses over db e :
  saveGameStateInternal a date guesses over db = Throw e →
  getCurrentUserOrThrow a db = Throw e.
Proof.
  unfold saveGameStateInternal.
  destruct (getCurrentUserOrThrow a db); [|congruence].
  by destruct (list_find _ _) as [[??]|].
Qed.

(** A rejected submission leaves every stored game state as it was. *)
Lemma checkGuess_Throw_frame req date rawGuess db db' e :
  checkGuess req date rawGuess db = (db', Throw e) →
  wordleGameStates db' = wordleGameStates db ∧ users db' = users db.
Proof.
  destruct (auth req) as [identity|] eqn:Hauth.
  - rewrite (checkGuess_stages _ _ _ _ identity Hauth).
    destruct (resolveSolution req date db) as [db1 r] eqn:Hres.
    apply resolveSolution_frame in Hres as [Hu Hg].
    destruct r as [puzzleSolution|e1]; [|by injection 1 as <- _].
    cbv zeta. repeat case_match; try (by injection 1 as <- _); discriminate.
  - unfold checkGuess. rewrite Hauth. by injection 1 as <- _.
Qed.
End service.


(** ** The keyboard *)

Section keyboard.
Context `{CaseMapping}.
Import Page.


Lemma letterAt_lt g i letter : letterAt g i letter = true → i < length (word g).
Proof.
  unfold letterAt. destruct (word g !! i) eqn:Hw; [|done].
  intros _. by eapply lookup_lt_Some.
Qed.

Lemma foundPresentOrCorrect_iff guesses letter :
  foundPresentOrCorrect guesses letter = true ↔
  markedIn guesses letter present ∨ markedIn guesses letter correct.
Proof.
  unfold foundPresentOrCorrect, markedIn. rewrite existsb_exists. split.
  - intros (g & Hg%list_elem_of_In & (j & _ & Hj)%existsb_exists).
    apply andb_true_iff in Hj as [Hletter [Hp|Hc]%orb_true_iff].
    + left. exists g, j. by apply bool_decide_eq_true in Hp.
    + right. exists g, j. by apply bool_decide_eq_true in Hc.
  - intros [(g & j & Hg & Hletter & Hf)|(g & j & Hg & Hletter & Hf)];
      exists g; (split; [by apply list_elem_of_In|]);
      apply existsb_exists; exists j;
      (split; [apply in_seq; pose proof (letterAt_lt _ _ _ Hletter); lia|]);
      rewrite Hletter, Hf; done.
Qed.

Lemma isLetterAbsent_iff guesses letter :
  isLetterAbsent guesses letter = true ↔
  markedIn guesses letter absent ∧
  ¬ (markedIn guesses letter present ∨ markedIn guesses letter correct).
Proof.
  rewrite <- foundPresentOrCorrect_iff.
  unfold isLetterAbsent, markedIn. rewrite existsb_exists. split.
  - intros (g & Hg%list_elem_of_In & (i & _ & Hi)%existsb_exists).
    apply andb_true_iff in Hi as [[Hletter Ha]%andb_true_iff Hnot].
    apply bool_decide_eq_true in Ha. apply negb_true_iff in Hnot.
    split; [by exists g, i|]. by rewrite Hnot.
  - intros [(g & i & Hg & Hletter & Ha) Hnot].
    exists g. split; [by apply list_elem_of_In|].
    apply existsb_exists. exists i.
    split; [apply in_seq; pose proof (letterAt_lt _ _ _ Hletter); lia|].
    rewrite Hletter, Ha. simpl. apply negb_true_iff.
    by destruct (foundPresentOrCorrect guesses letter).
Qed.

Lemma letterAt_key g i (k : codeUnit) :
  toUpperCase [k] = [k] →
  letterAt g i [k] = true ↔ word g !! i = Some k.
Proof.
  intros Hk. unfold letterAt. rewrite Hk. destruct (word g !! i) as [c|].
  - rewrite bool_decide_eq_true. split; congruence.
  - split; discriminate.
Qed.

Lemma markedIn_key guesses (k : codeUnit) f :
  toUpperCase [k] = [k] →
  markedIn guesses [k] f ↔
  ∃ g i, g ∈ guesses ∧ word g !! i = Some k ∧ feedbackAt g i = Some f.
Proof.
  intros Hk. unfold markedIn.
  split; intros (g & i & Hg & Hl & Hf); exists g, i;
    (split; [done|]); (split; [|done]); by apply (letterAt_key g i k Hk).
Qed.

Lemma getKeyColor_absent guesses letter :
  getKeyColor guesses letter = absentKeyClass ↔ isLetterAbsent guesses letter = true.
Proof.
  unfold getKeyColor. by destruct (isLetterAbsent guesses letter).
Qed.
End keyboard.


(** Nothing is thrown on letters the RegExp constructor accepts: five values
    come back, correct exactly where guess and solution agree. *)
Lemma computeFeedback_five_values_aux (solution guess : JsString) :
  length guess = 5 →
  Forall (λ c, regexpThrows c = false) guess →
  ∃ fb, computeFeedback solution guess = Ok fb ∧
        length fb = 5 ∧
        ∀ j, fb !! j = Some correct ↔ j < 5 ∧ guess !! j = solution !! j.
Proof.
  intros Hg Hok.
  destruct (secondPassPrefix_frame solution guess Hg 5 ltac:(lia) Hok)
    as (arr & Harr & Hlen & Hcorrect & Hsome).
  assert (length arr = 5) as Hlen5.
  { destruct (Hsome 4 ltac:(lia)) as [x Hx]. unfold arrayGet in Hx.
    destruct (arr !! 4) eqn:H4; [|done]. apply lookup_lt_Some in H4. lia. }
  destruct (denseArray_Ok arr) as (fb & Hfb & ->).
  { intros j Hj. apply Hsome. lia. }
  rewrite length_fmap in Hlen5.
  exists fb. split.
  { unfold computeFeedback, computeFeedbackArray, secondPass.
    fold (secondPassPrefix solution guess 5). by rewrite Harr. }
  split; [done|]. intros j. rewrite <- (Hcorrect j). unfold arrayGet.
  rewrite list_lookup_fmap. destruct (fb !! j); simpl; split; congruence.
Qed.


(** * The properties of the specification *)

Example computeFeedback_crane_trace :
  computeFeedback (js "crane") (js "trace") = Ok [absent; correct; correct; present; correct].
Proof. vm_compute. reflexivity. Qed.

(** ** The evaluator *)

(** C1, as amended: for every guess and solution of 5 code units in which no
    guess character is a regular-expression syntax character
    (backslash, [* + ? ( ) [ . ^ $ |]), the evaluation of [checkGuess] returns
    exactly the marks of the two-pass reference algorithm of the
    specification. *)
Theorem computeFeedback_two_pass (solution guess : JsString) :
  length guess = 5 → length solution = 5 →
  Forall (λ c, regexpLiteral c = true) guess →
  ∃ fb, computeFeedback solution guess = Ok fb ∧
        Some <$> fb = Reference.evaluate guess solution.
Proof.
  intros Hg Hs Hlit.
  destruct (computeFeedback_refines solution guess Hg Hs Hlit) as (fb & Hfb & _ & Heq).
  exists fb. by split.
Qed.

Lemma computeFeedback_two_pass_witness :
  ∃ fb, computeFeedback (js "crane") (js "trace") = Ok fb ∧
        Some <$> fb = Reference.evaluate (js "trace") (js "crane").
Proof.
  apply (computeFeedback_two_pass (js "crane") (js "trace"));
    [reflexivity|reflexivity|repeat constructor].
Defined.

(** C1 as stated fails: on the guess "(ight" against "light" the reference
    marks every position, the code throws at [new RegExp("(", "g")]. *)
Lemma computeFeedback_two_pass_bracket :
  length (js "(ight") = 5 ∧ length (js "light") = 5 ∧
  Reference.evaluate (js "(ight") (js "light")
    = [Some absent; Some correct; Some correct; Some correct; Some correct] ∧
  computeFeedback (js "light") (js "(ight") = Throw RegExpSyntaxError.
Proof. repeat split; vm_compute; reflexivity. Qed.

(** C6, as amended: for every guess and solution of 5 code units in which no
    guess character is refused by the RegExp constructor
    (backslash, [* + ? ( ) []), the evaluation yields exactly 5 values, each
    correct, present or absent, and as many of them are correct as there are
    positions where guess and solution agree. *)
Theorem computeFeedback_five_values (solution guess : JsString) :
  length guess = 5 → length solution = 5 →
  Forall (λ c, regexpThrows c = false) guess →
  ∃ fb, computeFeedback solution guess = Ok fb ∧
        length fb = 5 ∧
        Forall (λ f, f = correct ∨ f = present ∨ f = absent) fb ∧
        length (List.filter (λ f, bool_decide (f = correct)) fb) =
        length (List.filter (λ i, bool_decide (guess !! i = solution !! i)) (seq 0 5)).
Proof.
  intros Hg _ Hok.
  destruct (computeFeedback_five_values_aux solution guess Hg Hok)
    as (fb & Hfb & Hlen5 & Hcorrect).
  exists fb. split; [done|]. split; [done|]. split.
  { apply Forall_forall. intros [] _; auto. }
  rewrite length_filter_positions, Hlen5. apply positions_ext. intros j Hj.
  destruct (lookup_lt_is_Some_2 fb j ltac:(lia)) as [f Hf]. rewrite Hf. simpl.
  apply bool_decide_ext. specialize (Hcorrect j). rewrite Hf in Hcorrect.
  split.
  - intros ->. by apply Hcorrect.
  - intros Heq. assert (Some f = Some correct) as [= ->]; [|done].
    apply Hcorrect. split; [lia|done].
Qed.

Lemma computeFeedback_five_values_witness :
  ∃ fb, computeFeedback (js "abbey") (js "babel") = Ok fb ∧
        length fb = 5 ∧
        Forall (λ f, f = correct ∨ f = present ∨ f = absent) fb ∧
        length (List.filter (λ f, bool_decide (f = correct)) fb) =
        length (List.filter
          (λ i, bool_decide (js "babel" !! i = js "abbey" !! i)) (seq 0 5)).
Proof.
  apply (computeFeedback_five_values (js "abbey") (js "babel"));
    [reflexivity|reflexivity|repeat constructor].
Defined.

(** C6 as stated fails: the guess "h*llo" against "hello" yields no feedback
    at all, [new RegExp("*", "g")] throws. *)
Lemma computeFeedback_five_values_star :
  length (js "h*llo") = 5 ∧ length (js "hello") = 5 ∧
  computeFeedback (js "hello") (js "h*llo") = Throw RegExpSyntaxError.
Proof. repeat split; vm_compute; reflexivity. Qed.

(** C8: "NIGHT" against the solution "LIGHT" is marked absent, correct,
    correct, correct, correct; a first submission of "LIGHT" is marked
    correct five times, is correct, and ends the game after that one guess,
    which is what gets stored. *)
Theorem light_scenarios :
  computeFeedback (toLowerCase (CaseMapping := asciiCase) (js "LIGHT"))
                  (toLowerCase (CaseMapping := asciiCase) (js "NIGHT"))
    = Ok [absent; correct; correct; correct; correct] ∧
  (Scenario.run Scenario.signedIn "NIGHT" Scenario.freshDb).2
    = Ok {| feedback := [absent; correct; correct; correct; correct];
            isCorrect := false; isGameOver := false |} ∧
  (Scenario.run Scenario.signedIn "LIGHT" Scenario.freshDb).2
    = Ok {| feedback := [correct; correct; correct; correct; correct];
            isCorrect := true; isGameOver := true |} ∧
  wordleGameStates (Scenario.run Scenario.signedIn "LIGHT" Scenario.freshDb).1
    = [ {| GameState.userId := User._id Scenario.player;
           GameState.date := Scenario.today;
           GameState.guesses := [Scenario.lightGuess];
           GameState.isGameOver := true |} ].
Proof. repeat split; vm_compute; reflexivity. Qed.

(** ** The keyboard *)

(** C9: for every guess history and every key (a letter that upper-casing
    leaves as it is, as every key of the keyboard is), the key is shown as
    known absent exactly when some occurrence of the letter in the history is
    marked absent and no occurrence of it is marked present or correct. *)
Theorem getKeyColor_known_absent `{CaseMapping}
    (guesses : list Page.Guess) (k : codeUnit) :
  toUpperCase [k] = [k] →
  Page.getKeyColor guesses [k] = Page.absentKeyClass ↔
  (∃ g i, g ∈ guesses ∧ Page.word g !! i = Some k ∧
          Page.feedbackAt g i = Some absent) ∧
  ¬ (∃ g j, g ∈ guesses ∧ Page.word g !! j = Some k ∧
            (Page.feedbackAt g j = Some present ∨ Page.feedbackAt g j = Some correct)).
Proof.
  intros Hk. rewrite getKeyColor_absent, isLetterAbsent_iff.
  rewrite !(markedIn_key guesses k _ Hk). split.
  - intros [Ha Hnot]. split; [done|].
    intros (g & j & Hg & Hw & [Hf|Hf]); apply Hnot; [left|right]; by exists g, j.
  - intros [Ha Hnot]. split; [done|].
    intros [(g & j & Hg & Hw & Hf)|(g & j & Hg & Hw & Hf)];
      apply Hnot; exists g, j; auto.
Qed.

Lemma getKeyColor_known_absent_witness :
  Page.getKeyColor (H := asciiCase)
    [ {| Page.word := js "NIGHT";
         Page.feedback := Some <$> [absent; correct; correct; correct; correct] |} ]
    (js "N") = Page.absentKeyClass ↔
  (∃ g i, g ∈ [ {| Page.word := js "NIGHT";
                   Page.feedback := Some <$> [absent; correct; correct; correct; correct] |} ]
          ∧ Page.word g !! i = Some 78%N ∧ Page.feedbackAt g i = Some absent) ∧
  ¬ (∃ g j, g ∈ [ {| Page.word := js "NIGHT";
                     Page.feedback := Some <$> [absent; correct; correct; correct; correct] |} ]
            ∧ Page.word g !! j = Some 78%N ∧
            (Page.feedbackAt g j = Some present ∨ Page.feedbackAt g j = Some correct)).
Proof.
  apply (getKeyColor_known_absent (H := asciiCase) _ 78%N). reflexivity.
Defined.

(** ** The submission service *)

Section submissions.
Context `{CaseMapping} `{UsersModule}.

(** What a game state found by the lookup of [checkGuess] leads to. *)
Lemma checkGuess_found_rejected req date rawGuess db db1 identity puzzleSolution st :
  auth req = Some identity →
  resolveSolution req date db = (db1, Ok puzzleSolution) →
  length (toLowerCase rawGuess) = 5 →
  getGameStateInternal (subject identity) date db = Some st →
  (6 ≤ length (GameState.guesses st) →
   checkGuess req date rawGuess db = (db1, Throw MaximumGuessesReached)) ∧
  (length (GameState.guesses st) < 6 → GameState.isGameOver st = true →
   checkGuess req date rawGuess db = (db1, Throw GameIsAlreadyOver)).
Proof.
  intros Hauth Hres Hlen Hst.
  rewrite (checkGuess_stages _ _ _ _ identity Hauth), Hres. cbv zeta.
  rewrite decide_False by (intros Hne; by apply Hne).
  apply resolveSolution_frame in Hres as [_ Hstates].
  rewrite (getGameStateInternal_frame _ _ db db1 Hstates), Hst. simpl. split.
  - intros Hsix. by rewrite bool_decide_eq_true_2.
  - intros Hfew Hover. rewrite bool_decide_eq_false_2 by lia. by rewrite Hover.
Qed.

(** A submission that passes the checks, whose letters the RegExp
    constructor accepts and whose caller has a user document, is evaluated
    and saved. *)
Lemma checkGuess_accepts req date rawGuess db db1 identity puzzleSolution user :
  auth req = Some identity →
  resolveSolution req date db = (db1, Ok puzzleSolution) →
  length (toLowerCase rawGuess) = 5 →
  Forall (λ c, regexpThrows c = false) (toLowerCase rawGuess) →
  (∀ st, getGameStateInternal (subject identity) date db = Some st →
         length (GameState.guesses st) < 6 ∧ GameState.isGameOver st = false) →
  getCurrentUserOrThrow (auth req) db1 = Ok user →
  ∃ fb db2,
    computeFeedback (toLowerCase puzzleSolution) (toLowerCase rawGuess) = Ok fb ∧
    let updatedGuesses :=
      from_option GameState.guesses [] (getGameStateInternal (subject identity) date db) ++
      [ {| Guess.word := toUpperCase (toLowerCase rawGuess); Guess.feedback := fb |} ] in
    let isCorrect := bool_decide (toLowerCase rawGuess = toLowerCase puzzleSolution) in
    let isGameOver := isCorrect || bool_decide (6 ≤ length updatedGuesses) in
    checkGuess req date rawGuess db =
      (db2, Ok {| feedback := fb; isCorrect := isCorrect; isGameOver := isGameOver |}) ∧
    getGameStateInternal (User._id user) date db2 =
      Some {| GameState.userId := User._id user; GameState.date := date;
              GameState.guesses := updatedGuesses;
              GameState.isGameOver := isGameOver |}.
Proof.
  intros Hauth Hres Hlen Hok Hstate Huser.
  destruct (computeFeedback_five_values_aux (toLowerCase puzzleSolution)
              (toLowerCase rawGuess) Hlen Hok) as (fb & Hfb & _).
  set (updatedGuesses :=
    from_option GameState.guesses [] (getGameStateInternal (subject identity) date db) ++
    [ {| Guess.word := toUpperCase (toLowerCase rawGuess); Guess.feedback := fb |} ]).
  set (isCorrect := bool_decide (toLowerCase rawGuess = toLowerCase puzzleSolution)).
  set (over := isCorrect || bool_decide (6 ≤ length updatedGuesses)).
  destruct (saveGameStateInternal_Ok (auth req) date updatedGuesses over db1 user Huser)
    as (db2 & Hsave & _ & _ & Hstored).
  exists fb, db2. split; [done|]. cbv zeta. split; [|done].
  rewrite (checkGuess_stages _ _ _ _ identity Hauth), Hres. cbv zeta.
  rewrite decide_False by (intros Hne; by apply Hne).
  apply resolveSolution_frame in Hres as [_ Hstates].
  rewrite (getGameStateInternal_frame _ _ db db1 Hstates).
  fold updatedGuesses isCorrect over.
  destruct (getGameStateInternal (subject identity) date db) as [st|] eqn:Hst;
    cbn [from_option].
  - destruct (Hstate st eq_refl) as [Hfew Hnot].
    rewrite bool_decide_eq_false_2 by lia. rewrite Hnot, Hfb.
    subst over updatedGuesses. cbn [from_option] in Hsave |- *. by rewrite Hsave.
  - rewrite Hfb. subst over updatedGuesses. cbn [from_option] in Hsave |- *.
    by rewrite Hsave.
Qed.
End submissions.

Section submission_properties.
Context `{CaseMapping} `{UsersModule}.

(** The two ways puzzle resolution ends. *)
Lemma resolveSolution_outcome req date db db1 r :
  resolveSolution req date db = (db1, r) →
  (r = Throw FailedToFetchPuzzle ∧ db1 = db ∧
   getPuzzleFromDb date db = None ∧ fetch req date = None) ∨
  ((∃ puzzleSolution, r = Ok puzzleSolution) ∧
   ¬ (getPuzzleFromDb date db = None ∧ fetch req date = None) ∧
   (db1 = db ∨
    getPuzzleFromDb date db = None ∧
    ∃ data, fetch req date = Some data ∧ db1 = insertPuzzle date data db)).
Proof.
  rewrite resolveSolution_cases. intros Hres.
  destruct (getPuzzleFromDb date db) as [p|] eqn:Hp.
  - injection Hres as <- <-. right. split; [eauto|]. split; [|by left].
    intros [? _]. discriminate.
  - destruct (fetch req date) as [data|] eqn:Hf; injection Hres as <- <-.
    + right. split; [eauto|]. split; [|right; eauto].
      intros [_ ?]. discriminate.
    + by left.
Qed.

(** C5, as amended: [checkGuess] makes its checks in the order
    authentication, puzzle resolution (on a miss the fetched puzzle is stored
    there and then), guess length equals 5, game-state resolution, guess
    count, game over; the first check that fails decides the error. No
    rejection changes a stored game state; the only change a rejection can
    leave behind is the puzzle stored during resolution, so a submission
    rejected for its length leaves the game states as they were and the
    whole database as it was when the day's puzzle was already stored. *)
Theorem checkGuess_precondition_order req date rawGuess db db' r :
  checkGuess req date rawGuess db = (db', r) →
  (∀ e, firstRejection req date rawGuess db = Some e → r = Throw e) ∧
  (∀ e, r = Throw e →
     wordleGameStates db' = wordleGameStates db ∧
     (db' = db ∨
      getPuzzleFromDb date db = None ∧
      ∃ data, fetch req date = Some data ∧ db' = insertPuzzle date data db)).
Proof.
  intros Hrun. unfold firstRejection.
  destruct (auth req) as [identity|] eqn:Hauth.
  2:{ unfold checkGuess in Hrun. rewrite Hauth in Hrun. injection Hrun as <- <-.
      split; [by intros e [= <-]|]. intros e _. split; [done|by left]. }
  rewrite (checkGuess_stages _ _ _ _ identity Hauth) in Hrun.
  destruct (resolveSolution req date db) as [db1 rs] eqn:Hres.
  pose proof (resolveSolution_frame _ _ _ _ _ Hres) as [_ Hstates].
  apply resolveSolution_outcome in Hres
    as [(-> & -> & Hp & Hf)|([puzzleSolution ->] & Hresolved & Hdb1)].
  { injection Hrun as <- <-. rewrite bool_decide_eq_true_2 by done.
    split; [by intros e [= <-]|]. intros e _. split; [done|by left]. }
  rewrite (bool_decide_eq_false_2 _ Hresolved).
  cbv zeta in Hrun.
  rewrite (getGameStateInternal_frame _ _ db db1 Hstates) in Hrun.
  assert (∀ e, (db', r) = (db1, Throw e) →
            wordleGameStates db' = wordleGameStates db ∧
            (db' = db ∨
             getPuzzleFromDb date db = None ∧
             ∃ data, fetch req date = Some data ∧ db' = insertPuzzle date data db))
    as Hrejected.
  { intros e [= -> _]. by split. }
  destruct (decide (length (toLowerCase rawGuess) ≠ 5)) as [Hlen|Hlen].
  { rewrite bool_decide_eq_true_2 by done. split.
    - intros e [= <-]. by injection Hrun as _ <-.
    - intros e _. by apply (Hrejected GuessMustBe5Letters). }
  rewrite bool_decide_eq_false_2 by done.
  destruct (getGameStateInternal (subject identity) date db) as [st|] eqn:Hst;
    cbn [from_option] in Hrun.
  - destruct (bool_decide (6 ≤ length (GameState.guesses st))).
    { split.
      - intros e [= <-]. by injection Hrun as _ <-.
      - intros e _. by apply (Hrejected MaximumGuessesReached). }
    destruct (GameState.isGameOver st).
    { split.
      - intros e [= <-]. by injection Hrun as _ <-.
      - intros e _. by apply (Hrejected GameIsAlreadyOver). }
    split; [done|]. intros e ->.
    destruct (computeFeedback _ _) as [fb|e1]; [|by apply (Hrejected e1)].
    destruct (saveGameStateInternal _ _ _ _ _) as [db2|e2];
      [discriminate|by apply (Hrejected e2)].
  - split; [done|]. intros e ->.
    destruct (computeFeedback _ _) as [fb|e1]; [|by apply (Hrejected e1)].
    destruct (saveGameStateInternal _ _ _ _ _) as [db2|e2];
      [discriminate|by apply (Hrejected e2)].
Qed.
(** C4, as amended: when the game state [checkGuess] finds for the caller
    and the date has [isGameOver] set, a submission that passes the earlier
    checks (signed in, puzzle resolved, 5 code units) is rejected without
    evaluation and without touching the stored game states; the error is
    "Game is already over" when fewer than 6 guesses are stored and
    "Maximum guesses reached" when 6 or more are, that check coming first. *)
Theorem checkGuess_game_over req date rawGuess db db1 identity puzzleSolution st :
  auth req = Some identity →
  resolveSolution req date db = (db1, Ok puzzleSolution) →
  length (toLowerCase rawGuess) = 5 →
  getGameStateInternal (subject identity) date db = Some st →
  GameState.isGameOver st = true →
  checkGuess req date rawGuess db =
    (db1, Throw (if decide (6 ≤ length (GameState.guesses st))
                 then MaximumGuessesReached else GameIsAlreadyOver)) ∧
  wordleGameStates db1 = wordleGameStates db.
Proof.
  intros Hauth Hres Hlen Hst Hover.
  destruct (checkGuess_found_rejected _ _ rawGuess _ _ _ _ _ Hauth Hres Hlen Hst)
    as [Hsix Hfew].
  split; [|by apply resolveSolution_frame in Hres as [_ ?]].
  case_decide; [by apply Hsix|apply Hfew; [lia|done]].
Qed.

(** C10, as amended: [checkGuess] validates the length of the guess and not
    its content, except that a character the RegExp constructor refuses
    (backslash, [* + ? ( ) []) makes the evaluation throw. For a signed-in
    caller with a user document, a resolved puzzle, a lower-cased guess of 5
    code units none of which is such a character, and no stored state that is
    full or over, the guess is scored, stored upper-cased after the guesses
    the lookup found, and the result returned; digits are accepted. *)
Theorem checkGuess_any_content req date rawGuess db db1 identity puzzleSolution user :
  auth req = Some identity →
  resolveSolution req date db = (db1, Ok puzzleSolution) →
  length (toLowerCase rawGuess) = 5 →
  Forall (λ c, regexpThrows c = false) (toLowerCase rawGuess) →
  (∀ st, getGameStateInternal (subject identity) date db = Some st →
         length (GameState.guesses st) < 6 ∧ GameState.isGameOver st = false) →
  getCurrentUserOrThrow (auth req) db1 = Ok user →
  ∃ fb db2,
    computeFeedback (toLowerCase puzzleSolution) (toLowerCase rawGuess) = Ok fb ∧
    let updatedGuesses :=
      from_option GameState.guesses [] (getGameStateInternal (subject identity) date db) ++
      [ {| Guess.word := toUpperCase (toLowerCase rawGuess); Guess.feedback := fb |} ] in
    let isCorrect := bool_decide (toLowerCase rawGuess = toLowerCase puzzleSolution) in
    let isGameOver := isCorrect || bool_decide (6 ≤ length updatedGuesses) in
    checkGuess req date rawGuess db =
      (db2, Ok {| feedback := fb; isCorrect := isCorrect; isGameOver := isGameOver |}) ∧
    getGameStateInternal (User._id user) date db2 =
      Some {| GameState.userId := User._id user; GameState.date := date;
              GameState.guesses := updatedGuesses;
              GameState.isGameOver := isGameOver |}.
Proof. apply checkGuess_accepts. Qed.
End submission_properties.

Lemma checkGuess_precondition_order_witness :
  (Scenario.run Scenario.signedInOnline "abc" Scenario.noPuzzleDb).2
    = Throw GuessMustBe5Letters ∧
  wordleGameStates (Scenario.run Scenario.signedInOnline "abc" Scenario.noPuzzleDb).1
    = wordleGameStates Scenario.noPuzzleDb.
Proof.
  destruct (checkGuess_precondition_order (H := asciiCase) (H0 := usersByExternalId)
              Scenario.signedInOnline Scenario.today (js "abc") Scenario.noPuzzleDb
              _ _ (surjective_pairing _)) as [Hfirst Hframe].
  assert ((Scenario.run Scenario.signedInOnline "abc" Scenario.noPuzzleDb).2
          = Throw GuessMustBe5Letters) as Hr by (apply Hfirst; reflexivity).
  split; [exact Hr|]. exact (proj1 (Hframe _ Hr)).
Defined.

(** C5 as stated fails: with the day's puzzle not yet stored, a 3-letter
    guess is rejected for its length only after the fetched puzzle has been
    stored; and when the fetch fails the same guess is rejected for the
    fetch, not for its length. *)
Lemma checkGuess_length_after_puzzle :
  getPuzzleFromDb Scenario.today Scenario.noPuzzleDb = None ∧
  (Scenario.run Scenario.signedInOnline "abc" Scenario.noPuzzleDb).2
    = Throw GuessMustBe5Letters ∧
  length (wordles (Scenario.run Scenario.signedInOnline "abc" Scenario.noPuzzleDb).1) = 1 ∧
  (Scenario.run Scenario.signedIn "abc" Scenario.noPuzzleDb).2
    = Throw FailedToFetchPuzzle.
Proof. repeat split; vm_compute; reflexivity. Qed.

Lemma checkGuess_game_over_witness :
  Scenario.run Scenario.signedIn "NIGHT" Scenario.foundWonDb
    = (Scenario.foundWonDb, Throw GameIsAlreadyOver) ∧
  wordleGameStates Scenario.foundWonDb = wordleGameStates Scenario.foundWonDb.
Proof.
  exact (checkGuess_game_over (H := asciiCase) (H0 := usersByExternalId)
           Scenario.signedIn Scenario.today (js "NIGHT") Scenario.foundWonDb
           Scenario.foundWonDb {| subject := js "user_2ada" |} (js "LIGHT")
           {| GameState.userId := js "user_2ada"; GameState.date := Scenario.today;
              GameState.guesses := [Scenario.lightGuess];
              GameState.isGameOver := true |}
           eq_refl eq_refl eq_refl eq_refl eq_refl).
Defined.

(** C4 as stated fails on a lost game: the state found has [isGameOver] set
    and six guesses, and the submission is rejected with "Maximum guesses
    reached", not with "Game is already over". *)
Lemma checkGuess_game_over_lost :
  (GameState.isGameOver <$>
     getGameStateInternal (js "user_2ada") Scenario.today Scenario.foundLostDb)
    = Some true ∧
  Scenario.run Scenario.signedIn "NIGHT" Scenario.foundLostDb
    = (Scenario.foundLostDb, Throw MaximumGuessesReached).
Proof. split; vm_compute; reflexivity. Qed.

Lemma checkGuess_any_content_witness :
  ∃ fb db2,
    computeFeedback (js "light") (js "12345") = Ok fb ∧
    Scenario.run Scenario.signedIn "12345" Scenario.freshDb =
      (db2, Ok {| feedback := fb; isCorrect := false; isGameOver := false |}) ∧
    getGameStateInternal (User._id Scenario.player) Scenario.today db2 =
      Some {| GameState.userId := User._id Scenario.player;
              GameState.date := Scenario.today;
              GameState.guesses :=
                [ {| Guess.word := js "12345"; Guess.feedback := fb |} ];
              GameState.isGameOver := false |}.
Proof.
  apply (checkGuess_any_content (H := asciiCase) (H0 := usersByExternalId)
           Scenario.signedIn Scenario.today (js "12345") Scenario.freshDb
           Scenario.freshDb {| subject := js "user_2ada" |} (js "LIGHT")
           Scenario.player);
    [reflexivity|reflexivity|reflexivity|repeat constructor
    |intros st Hst; discriminate Hst|reflexivity].
Defined.

(** C10 as stated fails on content the RegExp constructor refuses: the
    5-character guess "(((((" from a signed-in player is neither scored nor
    stored, the evaluation throws a SyntaxError. *)
Lemma checkGuess_any_content_brackets :
  length (toLowerCase (CaseMapping := asciiCase) (js "(((((")) = 5 ∧
  Scenario.run Scenario.signedIn "(((((" Scenario.freshDb
    = (Scenario.freshDb, Throw RegExpSyntaxError).
Proof. split; vm_compute; reflexivity. Qed.

(** ** Where the stored game state and the looked-up game state part

    [saveGameStateInternal] stores a game under the document id of the
    caller's user, [checkGuess] looks the game up under the identity's
    subject. With a user whose document id is not the subject, the lookup
    finds nothing and every submission starts from an empty history. *)

(** C3 at the failing input: six guesses are stored for the player, the
    seventh submission is accepted and replaces them. Through [checkGuess]
    alone the stored history never grows past one guess: from a database
    without game states seven wrong guesses in a row are all accepted. *)
Theorem seventh_guess_accepted :
  Scenario.load Scenario.signedIn Scenario.lostDb
    = Ok (Some {| View.guesses := replicate 6 Scenario.nightGuess;
                  View.isGameOver := true; View.daysSinceLaunch := Some 1305%Z |}) ∧
  (Scenario.run Scenario.signedIn "NIGHT" Scenario.lostDb).2
    = Ok {| feedback := [absent; correct; correct; correct; correct];
            isCorrect := false; isGameOver := false |} ∧
  Scenario.load Scenario.signedIn
      (Scenario.run Scenario.signedIn "NIGHT" Scenario.lostDb).1
    = Ok (Some {| View.guesses := [Scenario.nightGuess];
                  View.isGameOver := false; View.daysSinceLaunch := Some 1305%Z |}) ∧
  Scenario.submitAll Scenario.signedIn (replicate 7 "NIGHT"%string) Scenario.freshDb
    = ({| users := [Scenario.player]; wordles := [Scenario.puzzleLight];
          wordleGameStates :=
            [ {| GameState.userId := User._id Scenario.player;
                 GameState.date := Scenario.today;
                 GameState.guesses := [Scenario.nightGuess];
                 GameState.isGameOver := false |} ] |},
       replicate 7
         (Ok {| feedback := [absent; correct; correct; correct; correct];
                isCorrect := false; isGameOver := false |})).
Proof. repeat split; vm_compute; reflexivity. Qed.

(** C2 at the failing input: from a database without game states the player
    submits "LIGHT" and wins; the next submission, "NIGHT", is accepted and
    the stored game is open again, with one guess. From the lost game of six
    guesses the same submission leaves one guess stored. *)
Theorem finished_game_reopened :
  let db1 := (Scenario.run Scenario.signedIn "LIGHT" Scenario.freshDb).1 in
  let db2 := (Scenario.run Scenario.signedIn "NIGHT" db1).1 in
  Scenario.load Scenario.signedIn db1
    = Ok (Some {| View.guesses := [Scenario.lightGuess];
                  View.isGameOver := true; View.daysSinceLaunch := Some 1305%Z |}) ∧
  (Scenario.run Scenario.signedIn "NIGHT" db1).2
    = Ok {| feedback := [absent; correct; correct; correct; correct];
            isCorrect := false; isGameOver := false |} ∧
  Scenario.load Scenario.signedIn db2
    = Ok (Some {| View.guesses := [Scenario.nightGuess];
                  View.isGameOver := false; View.daysSinceLaunch := Some 1305%Z |}) ∧
  (length ∘ GameState.guesses <$> wordleGameStates Scenario.lostDb) = [6] ∧
  (length ∘ GameState.guesses <$>
     wordleGameStates (Scenario.run Scenario.signedIn "NIGHT" Scenario.lostDb).1) = [1].
Proof. repeat split; vm_compute; reflexivity. Qed.

(** ** Further properties of the submission service *)

Section further.
Context `{CaseMapping} `{UsersModule}.

(** An accepted submission, taken apart. *)
Lemma checkGuess_Ok_inv req date rawGuess db db' out identity :
  auth req = Some identity →
  checkGuess req date rawGuess db = (db', Ok out) →
  ∃ db1 puzzleSolution fb,
    resolveSolution req date db = (db1, Ok puzzleSolution) ∧
    (∀ st, getGameStateInternal (subject identity) date db = Some st →
           length (GameState.guesses st) < 6 ∧ GameState.isGameOver st = false) ∧
    saveGameStateInternal (auth req) date
      (from_option GameState.guesses [] (getGameStateInternal (subject identity) date db) ++
       [ {| Guess.word := toUpperCase (toLowerCase rawGuess); Guess.feedback := fb |} ])
      (isGameOver out) db1 = Ok db'.
Proof.
  intros Hauth. rewrite (checkGuess_stages _ _ _ _ identity Hauth).
  destruct (resolveSolution req date db) as [db1 [puzzleSolution|e]] eqn:Hres; [|done].
  pose proof (resolveSolution_frame _ _ _ _ _ Hres) as [_ Hstates].
  cbv zeta. rewrite (getGameStateInternal_frame _ _ db db1 Hstates).
  case_decide; [done|].
  destruct (getGameStateInternal (subject identity) date db) as [st|] eqn:Hst;
    cbn [from_option].
  - destruct (bool_decide (6 ≤ length (GameState.guesses st))) eqn:Hsix; [done|].
    apply bool_decide_eq_false in Hsix.
    destruct (GameState.isGameOver st) eqn:Hover; [done|].
    destruct (computeFeedback _ _) as [fb|e]; [|done].
    destruct (saveGameStateInternal _ _ _ _ _) as [db2|e] eqn:Hsave; [|done].
    intros [= <- <-]. exists db1, puzzleSolution, fb. split; [done|].
    split; [|done]. intros st' [= <-]. split; [lia|done].
  - destruct (computeFeedback _ _) as [fb|e]; [|done].
    destruct (saveGameStateInternal _ _ _ _ _) as [db2|e] eqn:Hsave; [|done].
    intros [= <- <-]. exists db1, puzzleSolution, fb. split; [done|]. by split.
Qed.

Lemma saveGameStateInternal_user a date guesses over db db' :
  saveGameStateInternal a date guesses over db = Ok db' →
  ∃ user, getCurrentUserOrThrow a db = Ok user.
Proof.
  unfold saveGameStateInternal. destruct (getCurrentUserOrThrow a db); [eauto|done].
Qed.

(** When the game state [checkGuess] finds already holds 6 guesses, a
    submission that passes the earlier checks is rejected with "Maximum
    guesses reached", nothing is evaluated and no game state changes. *)
Theorem checkGuess_max_guesses_found req date rawGuess db db1 identity puzzleSolution st :
  auth req = Some identity →
  resolveSolution req date db = (db1, Ok puzzleSolution) →
  length (toLowerCase rawGuess) = 5 →
  getGameStateInternal (subject identity) date db = Some st →
  6 ≤ length (GameState.guesses st) →
  checkGuess req date rawGuess db = (db1, Throw MaximumGuessesReached) ∧
  wordleGameStates db1 = wordleGameStates db.
Proof.
  intros Hauth Hres Hlen Hst Hsix.
  split; [|by apply resolveSolution_frame in Hres as [_ ?]].
  by apply (checkGuess_found_rejected _ _ rawGuess _ _ _ _ _ Hauth Hres Hlen Hst).
Qed.

(** When the user document of the caller has the identity's subject as its
    id, so that the save and the lookup use one key, a submission never
    shortens the stored guesses and never reopens a finished game. *)
Theorem checkGuess_monotone_same_key req date rawGuess db db' r identity st :
  auth req = Some identity →
  (∀ db1 rs user, resolveSolution req date db = (db1, rs) →
     getCurrentUserOrThrow (auth req) db1 = Ok user →
     User._id user = subject identity) →
  checkGuess req date rawGuess db = (db', r) →
  getGameStateInternal (subject identity) date db = Some st →
  ∃ st', getGameStateInternal (subject identity) date db' = Some st' ∧
         length (GameState.guesses st) ≤ length (GameState.guesses st') ∧
         (GameState.isGameOver st = true → GameState.isGameOver st' = true).
Proof.
  intros Hauth Hkey Hrun Hst. destruct r as [out|e].
  - destruct (checkGuess_Ok_inv _ _ _ _ _ _ _ Hauth Hrun)
      as (db1 & puzzleSolution & fb & Hres & Hopen & Hsave).
    destruct (saveGameStateInternal_user _ _ _ _ _ _ Hsave) as [user Huser].
    destruct (saveGameStateInternal_Ok (auth req) date
                (from_option GameState.guesses []
                   (getGameStateInternal (subject identity) date db) ++
                 [ {| Guess.word := toUpperCase (toLowerCase rawGuess);
                      Guess.feedback := fb |} ])
                (isGameOver out) db1 user Huser) as (db2 & Hsave2 & _ & _ & Hstored).
    rewrite Hsave in Hsave2. injection Hsave2 as <-.
    rewrite (Hkey db1 _ user Hres Huser) in Hstored.
    eexists. split; [exact Hstored|]. cbn [GameState.guesses GameState.isGameOver].
    rewrite Hst. cbn [from_option]. rewrite length_app. split; [lia|].
    destruct (Hopen st Hst) as [_ Hnot]. rewrite Hnot. discriminate.
  - apply checkGuess_Throw_frame in Hrun as [Hstates _].
    exists st. rewrite (getGameStateInternal_frame _ _ db db' Hstates).
    split; [done|]. split; [lia|done].
Qed.

(** The sixth guess ends the game: with 5 guesses found and a guess that is
    not the solution, the result is not correct and the game is over. *)
Theorem checkGuess_sixth_guess req date rawGuess db db' out identity st :
  auth req = Some identity →
  getGameStateInternal (subject identity) date db = Some st →
  length (GameState.guesses st) = 5 →
  checkGuess req date rawGuess db = (db', Ok out) →
  isGameOver out = true.
Proof.
  intros Hauth Hst Hfive. rewrite (checkGuess_stages _ _ _ _ identity Hauth).
  destruct (resolveSolution req date db) as [db1 [puzzleSolution|e]] eqn:Hres; [|done].
  pose proof (resolveSolution_frame _ _ _ _ _ Hres) as [_ Hstates].
  cbv zeta. rewrite (getGameStateInternal_frame _ _ db db1 Hstates), Hst.
  cbn [from_option]. repeat case_match; try done.
  intros [= _ <-]. cbn [isGameOver]. rewrite length_app, Hfive.
  by rewrite orb_true_r.
Qed.
(** When the lookup under the identity's subject finds no document, an
    accepted submission stores a game of exactly one guess under the id of
    the caller's user document, whatever was stored there before; the game
    is over only if that guess is correct. *)
Theorem checkGuess_lookup_miss req date rawGuess db db1 identity puzzleSolution user :
  auth req = Some identity →
  resolveSolution req date db = (db1, Ok puzzleSolution) →
  length (toLowerCase rawGuess) = 5 →
  Forall (λ c, regexpThrows c = false) (toLowerCase rawGuess) →
  getGameStateInternal (subject identity) date db = None →
  getCurrentUserOrThrow (auth req) db1 = Ok user →
  ∃ fb db2,
    let isCorrect := bool_decide (toLowerCase rawGuess = toLowerCase puzzleSolution) in
    checkGuess req date rawGuess db =
      (db2, Ok {| feedback := fb; isCorrect := isCorrect; isGameOver := isCorrect |}) ∧
    getGameStateInternal (User._id user) date db2 =
      Some {| GameState.userId := User._id user; GameState.date := date;
              GameState.guesses :=
                [ {| Guess.word := toUpperCase (toLowerCase rawGuess);
                     Guess.feedback := fb |} ];
              GameState.isGameOver := isCorrect |}.
Proof.
  intros Hauth Hres Hlen Hok Hmiss Huser.
  destruct (checkGuess_accepts req date rawGuess db db1 identity puzzleSolution user
              Hauth Hres Hlen Hok) as (fb & db2 & _ & Hrun & Hstored); [|done|].
  { intros st Hst. by rewrite Hmiss in Hst. }
  exists fb, db2. rewrite Hmiss in Hrun, Hstored. cbn [from_option app length] in *.
  rewrite (bool_decide_eq_false_2 (6 ≤ 1)), orb_false_r in Hrun, Hstored by lia.
  by split.
Qed.
End further.

Lemma checkGuess_max_guesses_found_witness :
  Scenario.run Scenario.signedIn "NIGHT" Scenario.foundLostDb
    = (Scenario.foundLostDb, Throw MaximumGuessesReached) ∧
  wordleGameStates Scenario.foundLostDb = wordleGameStates Scenario.foundLostDb.
Proof.
  exact (checkGuess_max_guesses_found (H := asciiCase) (H0 := usersByExternalId)
           Scenario.signedIn Scenario.today (js "NIGHT") Scenario.foundLostDb
           Scenario.foundLostDb {| subject := js "user_2ada" |} (js "LIGHT")
           {| GameState.userId := js "user_2ada"; GameState.date := Scenario.today;
              GameState.guesses := replicate 6 Scenario.nightGuess;
              GameState.isGameOver := true |}
           eq_refl eq_refl eq_refl eq_refl (le_n 6)).
Defined.

Lemma checkGuess_sixth_guess_witness :
  isGameOver
    {| feedback := [absent; correct; correct; correct; correct];
       isCorrect := false; isGameOver := true |} = true.
Proof.
  exact (checkGuess_sixth_guess (H := asciiCase) (H0 := usersByExternalId)
           Scenario.signedIn Scenario.today (js "NIGHT") Scenario.sameKeyDb
           (Scenario.run Scenario.signedIn "NIGHT" Scenario.sameKeyDb).1
           {| feedback := [absent; correct; correct; correct; correct];
              isCorrect := false; isGameOver := true |}
           {| subject := js "user_2ada" |}
           {| GameState.userId := js "user_2ada"; GameState.date := Scenario.today;
              GameState.guesses := replicate 5 Scenario.nightGuess;
              GameState.isGameOver := false |}
           eq_refl eq_refl eq_refl eq_refl).
Defined.

Lemma checkGuess_monotone_same_key_witness :
  ∃ st', getGameStateInternal (js "user_2ada") Scenario.today
           (Scenario.run Scenario.signedIn "NIGHT" Scenario.sameKeyDb).1 = Some st' ∧
         length (replicate 5 Scenario.nightGuess) ≤ length (GameState.guesses st') ∧
         (false = true → GameState.isGameOver st' = true).
Proof.
  apply (checkGuess_monotone_same_key (H := asciiCase) (H0 := usersByExternalId)
           Scenario.signedIn Scenario.today (js "NIGHT") Scenario.sameKeyDb
           (Scenario.run Scenario.signedIn "NIGHT" Scenario.sameKeyDb).1
           (Scenario.run Scenario.signedIn "NIGHT" Scenario.sameKeyDb).2
           {| subject := js "user_2ada" |}
           {| GameState.userId := js "user_2ada"; GameState.date := Scenario.today;
              GameState.guesses := replicate 5 Scenario.nightGuess;
              GameState.isGameOver := false |}).
  - reflexivity.
  - intros db1 rs user Hres Huser. vm_compute in Hres. injection Hres as <- _.
    vm_compute in Huser. injection Huser as <-. reflexivity.
  - apply surjective_pairing.
  - reflexivity.
Defined.

(** Every key of the on-screen keyboard is a single upper-case letter. *)
Lemma keyboardRows_upper :
  Forall (λ key, ∃ k, key = [k] ∧ toUpperCase (CaseMapping := asciiCase) [k] = [k])
         (concat Page.keyboardRows).
Proof. repeat constructor; eexists; split; reflexivity. Qed.

Lemma checkGuess_lookup_miss_witness :
  ∃ fb db2,
    Scenario.run Scenario.signedIn "NIGHT" Scenario.lostDb =
      (db2, Ok {| feedback := fb; isCorrect := false; isGameOver := false |}) ∧
    getGameStateInternal (User._id Scenario.player) Scenario.today db2 =
      Some {| GameState.userId := User._id Scenario.player;
              GameState.date := Scenario.today;
              GameState.guesses := [ {| Guess.word := js "NIGHT"; Guess.feedback := fb |} ];
              GameState.isGameOver := false |}.
Proof.
  apply (checkGuess_lookup_miss (H := asciiCase) (H0 := usersByExternalId)
           Scenario.signedIn Scenario.today (js "NIGHT") Scenario.lostDb
           Scenario.lostDb {| subject := js "user_2ada" |} (js "LIGHT")
           Scenario.player);
    [reflexivity|reflexivity|reflexivity|repeat constructor|reflexivity|reflexivity].
Defined.


(** * The tables under the mutations *)

Section finds.
Context {A : Type} (P : A → Prop) `{!∀ x, Decision (P x)}.

(** Rewriting a document that does not match, by one that does not match,
    leaves a search as it was. *)
Lemma list_find_insert_irrelevant (l : list A) i x y :
  l !! i = Some y → ¬ P y → ¬ P x →
  list_find P (<[i:=x]> l) = list_find P l.
Proof.
  revert i. induction l as [|z l IH]; intros [|i] Hy Hny Hnx; try done.
  - injection Hy as ->. cbn. by rewrite !decide_False.
  - cbn. case_decide; [done|]. f_equal. by apply IH.
Qed.

Lemma list_find_snoc_irrelevant (l : list A) x :
  ¬ P x → list_find P (l ++ [x]) = list_find P l.
Proof.
  intros Hnx. induction l as [|z l IH]; cbn.
  - by rewrite decide_False.
  - case_decide; [done|]. by rewrite IH.
Qed.

Lemma list_find_snoc_new (l : list A) x :
  list_find P l = None → P x → list_find P (l ++ [x]) = Some (length l, x).
Proof.
  intros Hnone Hx. rewrite list_find_app_r by done.
  rewrite (proj2 (list_find_Some P [x] 0 x)); [done|].
  split_and!; [done|done|intros; lia].
Qed.
End finds.

Section stores.
Context `{UsersModule}.

Lemma insertPuzzle_newPuzzle date data db :
  wordles (insertPuzzle date data db) = wordles db ++ [newPuzzle date data].
Proof. done. Qed.

Lemma storePuzzle_effect date data data' db :
  ∃ db', storePuzzle date data db = Ok db' ∧
    getPuzzleFromDb date db' =
      Some (default (newPuzzle date data) (getPuzzleFromDb date db)) ∧
    (∀ d, d ≠ date → getPuzzleFromDb d db' = getPuzzleFromDb d db) ∧
    (is_Some (getPuzzleFromDb date db) → db' = db) ∧
    storePuzzle date data' db' = Ok db' ∧
    users db' = users db ∧ wordleGameStates db' = wordleGameStates db.
Proof.
  unfold storePuzzle, getPuzzleFromDb.
  destruct (list_find _ (wordles db)) as [[i p]|] eqn:Hfind.
  - exists db. rewrite Hfind. cbn. split_and!; try done.
  - exists (insertPuzzle date data db). rewrite insertPuzzle_newPuzzle.
    rewrite (list_find_snoc_new _ _ (newPuzzle date data) Hfind) by done.
    cbn. split_and!; try done.
    intros d Hd. by rewrite list_find_snoc_irrelevant by (cbn; congruence).
Qed.

(** A mutation keeps "one puzzle per date". *)
Lemma storePuzzle_unique date data db db' :
  storePuzzle date data db = Ok db' → uniquePuzzles db → uniquePuzzles db'.
Proof.
  unfold storePuzzle, uniquePuzzles.
  destruct (list_find _ (wordles db)) as [[i p]|] eqn:Hfind; intros [= <-]; [done|].
  rewrite insertPuzzle_newPuzzle, fmap_app. intros Hnodup.
  apply list.NoDup_app. split; [done|]. split; [|apply NoDup_singleton].
  intros d Hd ->%list_elem_of_singleton.
  apply list_elem_of_fmap in Hd as (p & Hp & Hin).
  apply list_find_None in Hfind. rewrite list.Forall_forall in Hfind.
  by apply (Hfind p Hin).
Qed.

Lemma saveGameStateInternal_effect a date guesses over db db' :
  saveGameStateInternal a date guesses over db = Ok db' →
  ∃ user, getCurrentUserOrThrow a db = Ok user ∧
    getGameStateInternal (User._id user) date db' =
      Some {| GameState.userId := User._id user; GameState.date := date;
              GameState.guesses := guesses; GameState.isGameOver := over |} ∧
    (∀ u d, (u, d) ≠ (User._id user, date) →
       getGameStateInternal u d db' = getGameStateInternal u d db) ∧
    length (wordleGameStates db') =
      length (wordleGameStates db) +
      match getGameStateInternal (User._id user) date db with
      | Some _ => 0
      | None => 1
      end ∧
    (uniqueGames db → uniqueGames db') ∧
    users db' = users db ∧ wordles db' = wordles db.
Proof.
  intros Hsave.
  destruct (getCurrentUserOrThrow a db) as [user|e] eqn:Huser.
  2:{ unfold saveGameStateInternal in Hsave. by rewrite Huser in Hsave. }
  exists user. split; [done|].
  destruct (saveGameStateInternal_Ok a date guesses over db user Huser)
    as (db2 & Hsave2 & Husers & Hwordles & Hstored).
  rewrite Hsave in Hsave2. injection Hsave2 as <-.
  split; [done|]. split_and!; [| | |done|done];
    unfold saveGameStateInternal in Hsave; rewrite Huser in Hsave;
    unfold getGameStateInternal, uniqueGames;
    destruct (list_find _ (wordleGameStates db)) as [[i existing]|] eqn:Hfind;
    injection Hsave as <-; cbn [wordleGameStates].
  - intros u d Hne.
    apply list_find_Some in Hfind as (Hi & [Hu Hd] & _).
    erewrite list_find_insert_irrelevant; [done|exact Hi|..]; cbn;
      intros [? ?]; apply Hne; congruence.
  - intros u d Hne. rewrite list_find_snoc_irrelevant; [done|].
    cbn. intros [? ?]. apply Hne. congruence.
  - rewrite length_insert. cbn. lia.
  - rewrite length_app. cbn. lia.
  - apply list_find_Some in Hfind as (Hi & _ & _).
    rewrite list_fmap_insert, list_insert_id; [done|].
    by rewrite list_lookup_fmap, Hi.
  - rewrite fmap_app. intros Hnodup.
    apply list.NoDup_app. split; [done|]. split; [|apply NoDup_singleton].
    intros k Hk ->%list_elem_of_singleton.
    apply list_elem_of_fmap in Hk as (gs & Hgs & Hin).
    apply list_find_None in Hfind. rewrite list.Forall_forall in Hfind.
    apply (Hfind gs Hin). unfold gameKey in Hgs. cbn in Hgs.
    injection Hgs as <- <-. done.
Qed.
(** A save, document by document: every document stays at its place with
    its key, and only a document of the caller's user and the date is
    rewritten. *)
Lemma saveGameStateInternal_documents a date guesses over db db' :
  saveGameStateInternal a date guesses over db = Ok db' →
  ∃ user, getCurrentUserOrThrow a db = Ok user ∧
    ∀ i old, wordleGameStates db !! i = Some old →
      ∃ new, wordleGameStates db' !! i = Some new ∧ gameKey new = gameKey old ∧
             (new = old ∨ gameKey old = (User._id user, date)).
Proof.
  unfold saveGameStateInternal.
  destruct (getCurrentUserOrThrow a db) as [user|e]; [|done].
  intros Hsave. exists user. split; [done|].
  destruct (list_find _ (wordleGameStates db)) as [[i0 existing]|] eqn:Hfind;
    injection Hsave as <-; cbn [wordleGameStates]; intros i old Hold.
  - apply list_find_Some in Hfind as (Hi0 & [Hu Hd] & _).
    destruct (decide (i = i0)) as [->|Hne].
    + assert (old = existing) as -> by congruence.
      eexists. split; [apply list_lookup_insert_eq; by eapply lookup_lt_Some|].
      split; [done|]. right. unfold gameKey. by rewrite Hu, Hd.
    + exists old. by rewrite list_lookup_insert_ne by done; auto.
  - exists old. split; [by apply lookup_app_l_Some|]. auto.
Qed.

(** Storing a puzzle: a puzzle already stored for the date wins and nothing
    changes; otherwise the new document is the one found afterwards. Other
    dates read as before, and a second store is never a change. *)
Theorem storePuzzle_existing_wins date data data' db :
  ∃ db', storePuzzle date data db = Ok db' ∧
    getPuzzleFromDb date db' =
      Some (default (newPuzzle date data) (getPuzzleFromDb date db)) ∧
    (∀ d, d ≠ date → getPuzzleFromDb d db' = getPuzzleFromDb d db) ∧
    (is_Some (getPuzzleFromDb date db) → db' = db) ∧
    storePuzzle date data' db' = Ok db' ∧
    users db' = users db ∧ wordleGameStates db' = wordleGameStates db.
Proof. apply storePuzzle_effect. Qed.

(** Saving a game: the document of the caller's user and the date is
    rewritten in place or added at the end; every other key reads as before,
    no document is removed, and "one game per user and date" is kept. *)
Theorem saveGameStateInternal_upsert a date guesses over db db' :
  saveGameStateInternal a date guesses over db = Ok db' →
  ∃ user, getCurrentUserOrThrow a db = Ok user ∧
    getGameStateInternal (User._id user) date db' =
      Some {| GameState.userId := User._id user; GameState.date := date;
              GameState.guesses := guesses; GameState.isGameOver := over |} ∧
    (∀ u d, (u, d) ≠ (User._id user, date) →
       getGameStateInternal u d db' = getGameStateInternal u d db) ∧
    length (wordleGameStates db') =
      length (wordleGameStates db) +
      match getGameStateInternal (User._id user) date db with
      | Some _ => 0
      | None => 1
      end ∧
    (uniqueGames db → uniqueGames db') ∧
    users db' = users db ∧ wordles db' = wordles db.
Proof. apply saveGameStateInternal_effect. Qed.
End stores.

Lemma saveGameStateInternal_upsert_witness :
  ∃ user, getCurrentUserOrThrow (UsersModule := usersByExternalId)
            (auth Scenario.signedIn) Scenario.lostDb = Ok user ∧
    getGameStateInternal (User._id user) Scenario.today
        {| users := [Scenario.player]; wordles := [Scenario.puzzleLight];
           wordleGameStates :=
             [ {| GameState.userId := User._id Scenario.player;
                  GameState.date := Scenario.today;
                  GameState.guesses := [Scenario.lightGuess];
                  GameState.isGameOver := true |} ] |} =
      Some {| GameState.userId := User._id user; GameState.date := Scenario.today;
              GameState.guesses := [Scenario.lightGuess];
              GameState.isGameOver := true |} ∧
    (∀ u d, (u, d) ≠ (User._id user, Scenario.today) →
       getGameStateInternal u d
        {| users := [Scenario.player]; wordles := [Scenario.puzzleLight];
           wordleGameStates :=
             [ {| GameState.userId := User._id Scenario.player;
                  GameState.date := Scenario.today;
                  GameState.guesses := [Scenario.lightGuess];
                  GameState.isGameOver := true |} ] |}
       = getGameStateInternal u d Scenario.lostDb) ∧
    1 = 1 + match getGameStateInternal (User._id user) Scenario.today Scenario.lostDb with
            | Some _ => 0
            | None => 1
            end ∧
    (uniqueGames Scenario.lostDb →
     uniqueGames
        {| users := [Scenario.player]; wordles := [Scenario.puzzleLight];
           wordleGameStates :=
             [ {| GameState.userId := User._id Scenario.player;
                  GameState.date := Scenario.today;
                  GameState.guesses := [Scenario.lightGuess];
                  GameState.isGameOver := true |} ] |}) ∧
    [Scenario.player] = users Scenario.lostDb ∧
    [Scenario.puzzleLight] = wordles Scenario.lostDb.
Proof.
  exact (saveGameStateInternal_upsert (H := usersByExternalId)
           (auth Scenario.signedIn) Scenario.today [Scenario.lightGuess] true
           Scenario.lostDb _ eq_refl).
Defined.

(** * A submission and the tables *)

Section submission_tables.
Context `{CaseMapping} `{UsersModule}.

(** Where the database of a [checkGuess] call comes from: the one puzzle
    resolution left, or a save on top of it. *)
Lemma checkGuess_database req date rawGuess db db' r :
  checkGuess req date rawGuess db = (db', r) →
  db' = db ∨
  ∃ db1 rs, resolveSolution req date db = (db1, rs) ∧
    (db' = db1 ∨
     ∃ guesses over, saveGameStateInternal (auth req) date guesses over db1 = Ok db').
Proof.
  destruct (auth req) as [identity|] eqn:Hauth.
  2:{ unfold checkGuess. rewrite Hauth. intros [= <- _]. by left. }
  rewrite (checkGuess_stages _ _ _ _ identity Hauth).
  destruct (resolveSolution req date db) as [db1 rs] eqn:Hres.
  intros Hrun. right. exists db1, rs. split; [done|].
  destruct rs as [puzzleSolution|e]; [|injection Hrun as <- _; by left].
  cbv zeta in Hrun.
  repeat case_match; try (injection Hrun as <- _; by left).
  injection Hrun as <- _. right. rewrite Hauth in *. eauto.
Qed.

Lemma resolveSolution_puzzles req date db db1 rs :
  resolveSolution req date db = (db1, rs) →
  (∀ d p, getPuzzleFromDb d db = Some p → getPuzzleFromDb d db1 = Some p) ∧
  (uniquePuzzles db → uniquePuzzles db1) ∧
  (∀ puzzleSolution, rs = Ok puzzleSolution →
     ∃ p, getPuzzleFromDb date db1 = Some p ∧ Wordle.solution p = puzzleSolution).
Proof.
  rewrite resolveSolution_cases.
  destruct (getPuzzleFromDb date db) as [p|] eqn:Hp.
  { intros [= <- <-]. split; [done|]. split; [done|]. intros ? [= <-]. eauto. }
  destruct (fetch req date) as [data|]; intros [= <- <-].
  2:{ split; [done|]. split; [done|]. intros ? [=]. }
  destruct (storePuzzle_effect date data data db)
    as (db1 & Hstore & Hfound & Hother & _ & _ & _ & _).
  assert (db1 = insertPuzzle date data db) as ->.
  { unfold storePuzzle in Hstore.
    rewrite (getPuzzleFromDb_None _ _ Hp) in Hstore. by injection Hstore as <-. }
  split; [|split].
  - intros d q Hq. destruct (decide (d = date)) as [->|Hne]; [congruence|].
    by rewrite Hother.
  - by apply (storePuzzle_unique date data db).
  - intros ? [= <-]. rewrite Hfound, Hp. cbn. eauto.
Qed.

Lemma getPuzzleFromDb_wordles d db db1 :
  wordles db1 = wordles db → getPuzzleFromDb d db1 = getPuzzleFromDb d db.
Proof. unfold getPuzzleFromDb. by intros ->. Qed.

Lemma checkGuess_tables req date rawGuess db db' r :
  checkGuess req date rawGuess db = (db', r) →
  users db' = users db ∧
  (∀ d p, getPuzzleFromDb d db = Some p → getPuzzleFromDb d db' = Some p) ∧
  (uniquePuzzles db → uniquePuzzles db') ∧
  (∀ u d, d ≠ date → getGameStateInternal u d db' = getGameStateInternal u d db) ∧
  length (wordleGameStates db) ≤ length (wordleGameStates db') ≤
    S (length (wordleGameStates db)) ∧
  (uniqueGames db → uniqueGames db').
Proof.
  intros [->|(db1 & rs & Hres & Hdb')]%checkGuess_database.
  { split_and!; try done; lia. }
  pose proof (resolveSolution_frame _ _ _ _ _ Hres) as [Husers Hgames].
  pose proof (resolveSolution_puzzles _ _ _ _ _ Hres) as (Hkeep & Huniq & _).
  destruct Hdb' as [->|(guesses & over & Hsave)].
  { split_and!; try done.
    - intros u d _. by apply getGameStateInternal_frame.
    - rewrite Hgames. lia.
    - rewrite Hgames. lia.
    - unfold uniqueGames. by rewrite Hgames. }
  apply saveGameStateInternal_effect in Hsave
    as (user & _ & _ & Hother & Hlen & Hug & Hu & Hw).
  split_and!.
  - congruence.
  - intros d p Hp. rewrite (getPuzzleFromDb_wordles d db1 db' Hw). by apply Hkeep.
  - unfold uniquePuzzles in *. rewrite Hw. done.
  - intros u d Hne. rewrite Hother by congruence.
    by apply getGameStateInternal_frame.
  - rewrite Hlen, Hgames. lia.
  - rewrite Hlen, Hgames. destruct (getGameStateInternal _ _ db1); lia.
  - intros Hg. apply Hug. unfold uniqueGames in *. by rewrite Hgames.
Qed.

(** A submission, accepted or rejected, never changes or removes a stored
    puzzle of any date, and keeps "one puzzle per date". *)
Theorem checkGuess_keeps_puzzles req date rawGuess db db' r :
  checkGuess req date rawGuess db = (db', r) →
  (∀ d p, getPuzzleFromDb d db = Some p → getPuzzleFromDb d db' = Some p) ∧
  (uniquePuzzles db → uniquePuzzles db').
Proof. intros Hrun. by destruct (checkGuess_tables _ _ _ _ _ _ Hrun) as (_ & ? & ? & _). Qed.

(** A submission, document by document: every stored game state stays at
    its place with its key; its content changes only in an accepted call, and
    only when it is a document of the date under the [_id] of the caller's
    user document. *)
Lemma checkGuess_documents req date rawGuess db db' r :
  checkGuess req date rawGuess db = (db', r) →
  ∀ i old, wordleGameStates db !! i = Some old →
    ∃ new, wordleGameStates db' !! i = Some new ∧ gameKey new = gameKey old ∧
      (new = old ∨
       ∃ out user, r = Ok out ∧
         getCurrentUserOrThrow (auth req) (resolveSolution req date db).1 = Ok user ∧
         gameKey old = (User._id user, date)).
Proof.
  intros Hrun i old Hold.
  destruct r as [out|e].
  2:{ apply checkGuess_Throw_frame in Hrun as [Hstates _].
      exists old. rewrite Hstates. auto. }
  destruct (checkGuess_database _ _ _ _ _ _ Hrun)
    as [->|(db1 & rs & Hres & [->|(guesses & over & Hsave)])].
  - exists old. auto.
  - apply resolveSolution_frame in Hres as [_ Hgames].
    exists old. rewrite Hgames. auto.
  - rewrite Hres. cbn [fst].
    apply resolveSolution_frame in Hres as [_ Hgames].
    apply saveGameStateInternal_documents in Hsave as (user & Huser & Hdocs).
    rewrite <- Hgames in Hold.
    destruct (Hdocs i old Hold) as (new & Hnew & Hkey & Hchange).
    exists new. split; [done|]. split; [done|].
    destruct Hchange as [->|Hmine]; [by left|]. right. eauto.
Qed.

(** A submission for one date never touches the users table or the game of
    another date. It removes no game state document and overwrites nobody
    else's: every document stays at its place with its key, and its content
    changes only in an accepted call and only when it is the document of the
    date under the [_id] of the caller's user document. At most one document
    is added, and "one game per user and date" is kept. *)
Theorem checkGuess_keeps_games req date rawGuess db db' r :
  checkGuess req date rawGuess db = (db', r) →
  users db' = users db ∧
  (∀ u d, d ≠ date → getGameStateInternal u d db' = getGameStateInternal u d db) ∧
  (∀ i old, wordleGameStates db !! i = Some old →
     ∃ new, wordleGameStates db' !! i = Some new ∧ gameKey new = gameKey old ∧
       (new = old ∨
        ∃ out user, r = Ok out ∧
          getCurrentUserOrThrow (auth req) (resolveSolution req date db).1 = Ok user ∧
          gameKey old = (User._id user, date))) ∧
  length (wordleGameStates db) ≤ length (wordleGameStates db') ≤
    S (length (wordleGameStates db)) ∧
  (uniqueGames db → uniqueGames db').
Proof.
  intros Hrun.
  destruct (checkGuess_tables _ _ _ _ _ _ Hrun) as (? & _ & _ & ? & ? & ?).
  split; [done|]. split; [done|].
  split; [by apply (checkGuess_documents req date rawGuess)|]. by split.
Qed.
End submission_tables.

Section reload.
Context `{CaseMapping} `{UsersModule}.

(** An accepted submission: what was evaluated and what was saved. *)
Lemma checkGuess_Ok_saved req date rawGuess db db' out :
  checkGuess req date rawGuess db = (db', Ok out) →
  ∃ identity db1 puzzleSolution,
    auth req = Some identity ∧
    resolveSolution req date db = (db1, Ok puzzleSolution) ∧
    length (toLowerCase rawGuess) = 5 ∧
    computeFeedback (toLowerCase puzzleSolution) (toLowerCase rawGuess)
      = Ok (feedback out) ∧
    isCorrect out = bool_decide (toLowerCase rawGuess = toLowerCase puzzleSolution) ∧
    saveGameStateInternal (auth req) date
      (from_option GameState.guesses [] (getGameStateInternal (subject identity) date db) ++
       [ {| Guess.word := toUpperCase (toLowerCase rawGuess);
            Guess.feedback := feedback out |} ])
      (isGameOver out) db1 = Ok db'.
Proof.
  destruct (auth req) as [identity|] eqn:Hauth.
  2:{ unfold checkGuess. by rewrite Hauth. }
  rewrite (checkGuess_stages _ _ _ _ identity Hauth).
  destruct (resolveSolution req date db) as [db1 [puzzleSolution|e]] eqn:Hres; [|done].
  pose proof (resolveSolution_frame _ _ _ _ _ Hres) as [_ Hstates].
  cbv zeta. rewrite (getGameStateInternal_frame _ _ db db1 Hstates).
  case_decide as Hlen; [done|].
  destruct (from_option _ false _); [done|].
  destruct (from_option _ false _); [done|].
  destruct (computeFeedback _ _) as [fb|e] eqn:Hfb; [|done].
  destruct (saveGameStateInternal _ _ _ _ _) as [db2|e] eqn:Hsave; [|done].
  intros [= <- <-]. exists identity, db1, puzzleSolution. cbn.
  rewrite Hauth in Hsave.
  split_and!; try done.
Qed.

Lemma getGameState_found a date db user gs :
  getCurrentUserOrThrow a db = Ok user →
  getGameStateInternal (User._id user) date db = Some gs →
  getGameState a date db =
    Ok (Some {| View.guesses := GameState.guesses gs;
                View.isGameOver := GameState.isGameOver gs;
                View.daysSinceLaunch :=
                  Wordle.daysSinceLaunch <$> getPuzzleFromDb date db |}).
Proof.
  intros Huser Hgs. unfold getGameState. rewrite Huser.
  unfold getGameStateInternal in Hgs. cbv zeta. by rewrite Hgs.
Qed.

(** What the page loads after an accepted submission, when the users
    helper reads nothing but the users table: the stored game ends with the
    guess just scored, upper-cased, with the feedback and the game-over flag
    the call returned, and the number of the day's puzzle is known. *)
Theorem checkGuess_then_getGameState req date rawGuess db db' out :
  (∀ dbA dbB, users dbA = users dbB →
     getCurrentUserOrThrow (auth req) dbA = getCurrentUserOrThrow (auth req) dbB) →
  checkGuess req date rawGuess db = (db', Ok out) →
  ∃ view, getGameState (auth req) date db' = Ok (Some view) ∧
    list.last (View.guesses view)
      = Some {| Guess.word := toUpperCase (toLowerCase rawGuess);
                Guess.feedback := feedback out |} ∧
    View.isGameOver view = isGameOver out ∧
    is_Some (View.daysSinceLaunch view).
Proof.
  intros Hstable Hrun.
  destruct (checkGuess_Ok_saved _ _ _ _ _ _ Hrun)
    as (identity & db1 & puzzleSolution & Hauth & Hres & _ & _ & _ & Hsave).
  destruct (saveGameStateInternal_effect _ _ _ _ _ _ Hsave)
    as (user & Huser & Hstored & _ & _ & _ & Husers & Hwordles).
  rewrite (Hstable db1 db' (eq_sym Husers)) in Huser.
  rewrite (getGameState_found _ _ _ _ _ Huser Hstored).
  eexists. split; [reflexivity|]. cbn. split; [apply last_snoc|]. split; [done|].
  destruct (resolveSolution_puzzles _ _ _ _ _ Hres) as (_ & _ & Hfound).
  destruct (Hfound puzzleSolution eq_refl) as (p & Hp & _).
  rewrite (getPuzzleFromDb_wordles date db1 db' Hwordles), Hp. by eexists.
Qed.
End reload.

Lemma checkGuess_then_getGameState_witness :
  ∃ view, Scenario.load Scenario.signedInOnline
            (Scenario.run Scenario.signedInOnline "NIGHT" Scenario.noPuzzleDb).1
          = Ok (Some view) ∧
    list.last (View.guesses view)
      = Some {| Guess.word := js "NIGHT";
                Guess.feedback := [absent; correct; correct; correct; correct] |} ∧
    View.isGameOver view = false ∧
    is_Some (View.daysSinceLaunch view).
Proof.
  apply (checkGuess_then_getGameState (H := asciiCase) (H0 := usersByExternalId)
           Scenario.signedInOnline Scenario.today (js "NIGHT") Scenario.noPuzzleDb
           (Scenario.run Scenario.signedInOnline "NIGHT" Scenario.noPuzzleDb).1
           {| feedback := [absent; correct; correct; correct; correct];
              isCorrect := false; isGameOver := false |}).
  - intros dbA dbB Husers. cbn. unfold userByExternalId. by rewrite Husers.
  - reflexivity.
Defined.

Lemma checkGuess_keeps_puzzles_witness :
  (∀ d p, getPuzzleFromDb d Scenario.freshDb = Some p →
     getPuzzleFromDb d (Scenario.run Scenario.signedIn "NIGHT" Scenario.freshDb).1
       = Some p) ∧
  (uniquePuzzles Scenario.freshDb →
   uniquePuzzles (Scenario.run Scenario.signedIn "NIGHT" Scenario.freshDb).1).
Proof.
  exact (checkGuess_keeps_puzzles (H := asciiCase) (H0 := usersByExternalId)
           Scenario.signedIn Scenario.today (js "NIGHT") Scenario.freshDb
           _ _ (surjective_pairing _)).
Defined.

Lemma checkGuess_keeps_games_witness :
  users (Scenario.run Scenario.signedIn "NIGHT" Scenario.lostDb).1
    = users Scenario.lostDb ∧
  (∀ u d, d ≠ Scenario.today →
     getGameStateInternal u d (Scenario.run Scenario.signedIn "NIGHT" Scenario.lostDb).1
       = getGameStateInternal u d Scenario.lostDb) ∧
  (∀ i old, wordleGameStates Scenario.lostDb !! i = Some old →
     ∃ new,
       wordleGameStates (Scenario.run Scenario.signedIn "NIGHT" Scenario.lostDb).1 !! i
         = Some new ∧
       gameKey new = gameKey old ∧
       (new = old ∨
        ∃ out user,
          (Scenario.run Scenario.signedIn "NIGHT" Scenario.lostDb).2 = Ok out ∧
          getCurrentUserOrThrow (UsersModule := usersByExternalId)
            (auth Scenario.signedIn)
            (resolveSolution Scenario.signedIn Scenario.today Scenario.lostDb).1 = Ok user ∧
          gameKey old = (User._id user, Scenario.today))) ∧
  length (wordleGameStates Scenario.lostDb)
    ≤ length (wordleGameStates (Scenario.run Scenario.signedIn "NIGHT" Scenario.lostDb).1)
    ≤ S (length (wordleGameStates Scenario.lostDb)) ∧
  (uniqueGames Scenario.lostDb →
   uniqueGames (Scenario.run Scenario.signedIn "NIGHT" Scenario.lostDb).1).
Proof.
  exact (checkGuess_keeps_games (H := asciiCase) (H0 := usersByExternalId)
           Scenario.signedIn Scenario.today (js "NIGHT") Scenario.lostDb
           _ _ (surjective_pairing _)).
Defined.

(** * More about the evaluation *)

Section evaluation_returns.
Variables solution guess : JsString.
Hypothesis guess_length : length guess = 5.

Local Abbreviation eqAt j := (guess !! j = solution !! j).

(** A round of the second loop that returns: it wrote slot [i] only, and
    only when the slot was not marked correct; it wrote present only for a
    letter the solution includes. *)
Lemma secondPassBody_Ok feedback feedback' i :
  secondPassBody solution guess solution feedback i = Ok feedback' →
  length feedback' ≤ length feedback `max` S i ∧
  (∀ j, j ≠ i → arrayGet feedback' j = arrayGet feedback j) ∧
  (arrayGet feedback i = Some correct → feedback' = feedback) ∧
  (arrayGet feedback i ≠ Some correct →
     arrayGet feedback' i = Some present ∧ includes solution (guess !! i) = true ∨
     arrayGet feedback' i = Some absent).
Proof.
  unfold secondPassBody. case_decide as Hc.
  { intros [= <-]. split_and!; [lia|done|done|done]. }
  destruct (matchCount solution (guess !! i)) as [n|e]; [|done].
  destruct (includes solution (guess !! i)) eqn:Hinc; cbn [andb].
  - destruct (bool_decide _); intros [= <-];
      (split_and!;
       [ rewrite length_arraySet; lia
       | intros j Hj; rewrite arrayGet_arraySet; by rewrite decide_False
       | done
       | intros _; rewrite arrayGet_arraySet, decide_True by done; auto ]).
  - intros [= <-]. split_and!;
      [ rewrite length_arraySet; lia
      | intros j Hj; rewrite arrayGet_arraySet; by rewrite decide_False
      | done
      | intros _; rewrite arrayGet_arraySet, decide_True by done; auto ].
Qed.

Lemma secondPassPrefix_Ok n fb :
  n ≤ 5 →
  secondPassPrefix solution guess n = Ok fb →
  length fb ≤ 5 ∧
  (∀ j, arrayGet fb j = Some correct ↔ j < 5 ∧ eqAt j) ∧
  (∀ j, j < n → is_Some (arrayGet fb j)) ∧
  (∀ j, arrayGet fb j = Some present → includes solution (guess !! j) = true).
Proof.
  revert fb. induction n as [|n IH]; intros fb Hn.
  - intros [= <-]. split; [by apply firstPass_length|]. split; [|split; [lia|]].
    + intros j. rewrite (firstPass_get solution guess guess_length).
      case_decide; [tauto|]. split; [discriminate|tauto].
    + intros j. rewrite (firstPass_get solution guess guess_length).
      by case_decide.
  - rewrite secondPassPrefix_S.
    destruct (secondPassPrefix solution guess n) as [fb0|e]; [|done].
    destruct (IH fb0 ltac:(lia) eq_refl) as (Hlen & Hcorrect & Hsome & Hpresent).
    intros (Hlen' & Hother & Hkeep & Hmark)%secondPassBody_Ok.
    split; [lia|]. split; [|split].
    + intros j. destruct (decide (j = n)) as [->|Hne]; [|by rewrite Hother].
      rewrite <- Hcorrect.
      destruct (decide (arrayGet fb0 n = Some correct)) as [Hc|Hc].
      * by rewrite (Hkeep Hc).
      * destruct (Hmark Hc) as [[Hm _]|Hm]; rewrite Hm; split; [done|tauto|done|tauto].
    + intros j Hj. destruct (decide (j = n)) as [->|Hne].
      * destruct (decide (arrayGet fb0 n = Some correct)) as [Hc|Hc].
        -- rewrite (Hkeep Hc), Hc. eauto.
        -- destruct (Hmark Hc) as [[Hm _]|Hm]; rewrite Hm; eauto.
      * rewrite Hother by done. apply Hsome. lia.
    + intros j. destruct (decide (j = n)) as [->|Hne]; [|rewrite Hother by done; auto].
      destruct (decide (arrayGet fb0 n = Some correct)) as [Hc|Hc].
      * rewrite (Hkeep Hc), Hc. discriminate.
      * destruct (Hmark Hc) as [[_ Hinc]|Hm]; [done|]. rewrite Hm. discriminate.
Qed.

(** What a returned feedback always satisfies, whatever the letters. *)
Lemma computeFeedback_Ok fb :
  computeFeedback solution guess = Ok fb →
  length fb = 5 ∧
  (∀ j, fb !! j = Some correct ↔ j < 5 ∧ eqAt j) ∧
  (∀ j, fb !! j = Some present → includes solution (guess !! j) = true).
Proof.
  unfold computeFeedback, computeFeedbackArray, secondPass.
  fold (secondPassPrefix solution guess 5).
  destruct (secondPassPrefix solution guess 5) as [arr|e] eqn:Harr; [|done].
  destruct (secondPassPrefix_Ok 5 arr ltac:(lia) Harr)
    as (Hlen & Hcorrect & Hsome & Hpresent).
  intros Hdense.
  destruct (denseArray_Ok arr) as (l & Hl & ->).
  { intros j Hj. apply Hsome. lia. }
  rewrite Hl in Hdense. injection Hdense as ->.
  assert (∀ j, arrayGet (Some <$> fb) j = fb !! j) as Hget.
  { intros j. unfold arrayGet. rewrite list_lookup_fmap. by destruct (fb !! j). }
  split; [|split].
  - rewrite length_fmap in Hlen. destruct (Hsome 4 ltac:(lia)) as [x Hx].
    rewrite Hget in Hx. apply lookup_lt_Some in Hx. lia.
  - intros j. by rewrite <- Hget, Hcorrect.
  - intros j. rewrite <- Hget. apply Hpresent.
Qed.

Lemma includes_Some (L : codeUnit) :
  includes solution (Some L) = bool_decide (L ∈ solution).
Proof. apply includesString_singleton. Qed.
End evaluation_returns.

Section evaluation_facts.
Variables solution guess : JsString.
Hypothesis guess_length : length guess = 5.

Lemma computeFeedback_absent_aux fb i L :
  computeFeedback solution guess = Ok fb →
  i < 5 → guess !! i = Some L → L ∉ solution →
  fb !! i = Some absent.
Proof.
  intros (Hlen & Hcorrect & Hpresent)%computeFeedback_Ok Hi HL Hnotin; [|done].
  destruct (lookup_lt_is_Some_2 fb i ltac:(lia)) as [f Hf]. rewrite Hf.
  destruct f; [| |done].
  - apply Hcorrect in Hf as [_ Heq]. rewrite HL in Heq.
    exfalso. apply Hnotin. by eapply list_elem_of_lookup_2.
  - apply Hpresent in Hf. rewrite HL, includes_Some in Hf.
    by apply bool_decide_eq_true in Hf.
Qed.

Lemma computeFeedback_all_correct_aux :
  length solution = 5 →
  computeFeedback solution guess = Ok (replicate 5 correct) ↔ guess = solution.
Proof.
  intros Hs. split.
  - intros (_ & Hcorrect & _)%computeFeedback_Ok; [|done].
    apply list_eq. intros j. destruct (decide (j < 5)) as [Hj|Hj].
    + apply Hcorrect. by apply lookup_replicate_2.
    + rewrite !lookup_ge_None_2; [done|lia..].
  - intros <-.
    assert (∀ n, n ≤ 5 →
              secondPassPrefix guess guess n = Ok (firstPass guess guess)) as Hprefix.
    { induction n as [|n IH]; intros Hn; [done|].
      rewrite secondPassPrefix_S, IH by lia. unfold secondPassBody.
      rewrite decide_True; [done|].
      rewrite (firstPass_get guess guess guess_length).
      rewrite decide_True; [done|]. split; [lia|done]. }
    destruct (denseArray_Ok (firstPass guess guess)) as (l & Hl & Heq).
    { intros j Hj. rewrite (firstPass_get guess guess guess_length).
      pose proof (firstPass_length guess guess guess_length).
      rewrite decide_True; [eauto|]. split; [lia|done]. }
    assert (computeFeedback guess guess = Ok l) as Hfb.
    { unfold computeFeedback, computeFeedbackArray, secondPass.
      fold (secondPassPrefix guess guess 5). by rewrite Hprefix, Hl. }
    rewrite Hfb. f_equal.
    apply computeFeedback_Ok in Hfb as (Hlen & Hcorrect & _); [|done].
    apply list_eq. intros j. destruct (decide (j < 5)) as [Hj|Hj].
    + rewrite lookup_replicate_2 by done. apply Hcorrect. by split.
    + rewrite !lookup_ge_None_2; [done|rewrite length_replicate; lia|lia].
Qed.
End evaluation_facts.

(** Whenever the evaluation returns, a guess letter the solution does not
    hold is marked absent, whatever the other letters are. *)
Theorem computeFeedback_absent (solution guess : JsString) fb i L :
  length guess = 5 →
  computeFeedback solution guess = Ok fb →
  i < 5 → guess !! i = Some L → L ∉ solution →
  fb !! i = Some absent.
Proof. intros Hg. by apply computeFeedback_absent_aux. Qed.

Lemma computeFeedback_absent_witness : [absent; correct; correct; correct; correct] !! 0 = Some absent.
Proof.
  apply (computeFeedback_absent (js "light") (js "night") _ 0 110%N);
    [reflexivity|reflexivity|lia|reflexivity|].
  intros Hin. repeat (apply elem_of_cons in Hin as [Hin|Hin]; [discriminate Hin|]).
  by apply elem_of_nil in Hin.
Defined.

(** Five marks "correct" come back exactly for the solution itself, and they
    come back for every solution of 5 code units: nothing is thrown, since no
    RegExp is built at a correct position. *)
Theorem computeFeedback_all_correct (solution guess : JsString) :
  length guess = 5 → length solution = 5 →
  computeFeedback solution guess = Ok (replicate 5 correct) ↔ guess = solution.
Proof. intros Hg Hs. by apply computeFeedback_all_correct_aux. Qed.

Lemma computeFeedback_all_correct_witness :
  computeFeedback (js "(a.b*") (js "(a.b*") = Ok (replicate 5 correct)
  ↔ js "(a.b*" = js "(a.b*".
Proof.
  apply (computeFeedback_all_correct (js "(a.b*") (js "(a.b*")); reflexivity.
Defined.

Section counting.
Import Reference.

Lemma positions_le_imp n p q :
  (∀ j, j < n → p j = true → q j = true) → positions n p ≤ positions n q.
Proof.
  induction n as [|n IH]; intros Himp; [done|].
  rewrite !positions_S. specialize (IH ltac:(intros; apply Himp; [lia|done])).
  destruct (p n) eqn:Hp; [rewrite (Himp n) by (lia || done)|destruct (q n)]; lia.
Qed.

Lemma positions_exists n p : 0 < positions n p → ∃ j, j < n ∧ p j = true.
Proof.
  induction n as [|n IH]; [unfold positions; simpl; lia|].
  rewrite positions_S. destruct (p n) eqn:Hp; [eauto|].
  intros Hpos. destruct IH as (j & Hj & Hpj); [lia|]. exists j. split; [lia|done].
Qed.

Lemma positions_or n a b c :
  positions n (λ j, a j && (b j || c j)) ≤
  positions n (λ j, a j && b j) + positions n (λ j, a j && c j).
Proof.
  induction n as [|n IH]; [done|]. rewrite !positions_S.
  destruct (a n), (b n), (c n); simpl; lia.
Qed.
End counting.

Section colours.
Import Reference.
Variables solution guess : JsString.
Hypothesis guess_length : length guess = 5.
Hypothesis solution_length : length solution = 5.

Local Abbreviation marks1 := (pass1 guess solution).
Local Abbreviation M := (evaluate guess solution).

Lemma evaluate_correct_iff j L :
  guess !! j = Some L →
  M !! j = Some (Some correct) ↔ marks1 !! j = Some (Some correct).
Proof.
  intros HL. rewrite (evaluate_marks solution guess guess_length solution_length j L HL).
  rewrite (pass1_correct_iff solution guess guess_length solution_length).
  unfold markAt. apply lookup_lt_Some in HL as Hj.
  case_decide as Heq.
  - split; [|done]. intros _. split; [lia|done].
  - split; [|tauto]. intros [= Hm]. by destruct (_ && _).
Qed.

Lemma correctCount_le L :
  correctCount guess marks1 L ≤ solutionCount solution L.
Proof.
  unfold correctCount, solutionCount. rewrite guess_length, solution_length.
  apply positions_le_imp. intros j Hj [Hg Hm]%andb_true_iff.
  apply bool_decide_eq_true in Hg, Hm. apply bool_decide_eq_true.
  apply (pass1_correct_iff solution guess guess_length solution_length) in Hm as [_ Heq].
  congruence.
Qed.

(** The letters marked present never outnumber what pass 1 left over. *)
Lemma evaluate_present_bound L n :
  n ≤ 5 →
  correctCount guess marks1 L + alreadyPresentCount guess M n L
  ≤ solutionCount solution L.
Proof.
  induction n as [|n IH]; intros Hn.
  - pose proof (correctCount_le L). unfold alreadyPresentCount, positions. simpl. lia.
  - specialize (IH ltac:(lia)). unfold alreadyPresentCount in *.
    rewrite positions_S.
    destruct (bool_decide (guess !! n = Some L)) eqn:Hg; [|simpl; lia].
    destruct (bool_decide (M !! n = Some (Some present))) eqn:Hp; [|simpl; lia].
    apply bool_decide_eq_true in Hg, Hp. cbn [andb].
    rewrite (evaluate_marks solution guess guess_length solution_length n L Hg) in Hp.
    injection Hp as Hp. unfold markAt in Hp.
    destruct (decide (guess !! n = solution !! n)); [done|].
    destruct (bool_decide (L ∈ solution)); [|done]. cbn [andb] in Hp.
    destruct (bool_decide (_ < _)) eqn:Hlt; [|done].
    apply bool_decide_eq_true in Hlt. unfold alreadyPresentCount in Hlt. lia.
Qed.

Lemma evaluate_coloured_bound L :
  positions 5 (λ j, bool_decide (guess !! j = Some L) &&
                    (bool_decide (M !! j = Some (Some correct)) ||
                     bool_decide (M !! j = Some (Some present))))
  ≤ solutionCount solution L.
Proof.
  etransitivity; [apply positions_or|].
  pose proof (evaluate_present_bound L 5 ltac:(lia)) as Hbound.
  unfold alreadyPresentCount, correctCount in Hbound. rewrite guess_length in Hbound.
  etransitivity; [|exact Hbound]. apply Nat.add_le_mono_r.
  apply Nat.eq_le_incl, positions_ext. intros j Hj.
  destruct (bool_decide (guess !! j = Some L)) eqn:Hg; [|done].
  apply bool_decide_eq_true in Hg. cbn [andb].
  apply bool_decide_ext. by apply evaluate_correct_iff with L.
Qed.

(** A letter of the solution that the guess holds is coloured somewhere in
    the guess. *)
Lemma evaluate_letter_found L i :
  L ∈ solution → guess !! i = Some L →
  ∃ j, guess !! j = Some L ∧
       (M !! j = Some (Some present) ∨ M !! j = Some (Some correct)).
Proof.
  intros Hin Hi. apply lookup_lt_Some in Hi as Hi5.
  destruct (decide (0 < alreadyPresentCount guess M i L)) as [Hpos|Hzero].
  { apply positions_exists in Hpos as (j & Hj & [Hg Hp]%andb_true_iff).
    apply bool_decide_eq_true in Hg, Hp. eauto. }
  pose proof (evaluate_marks solution guess guess_length solution_length i L Hi) as Hmark.
  unfold markAt in Hmark.
  destruct (decide (guess !! i = solution !! i)); [eauto|].
  rewrite (bool_decide_eq_true_2 (L ∈ solution)) in Hmark by done. cbn [andb] in Hmark.
  destruct (bool_decide (_ < _)) eqn:Hlt; [eauto|].
  apply bool_decide_eq_false in Hlt.
  assert (0 < solutionCount solution L) as Hsc.
  { apply list_elem_of_lookup in Hin as [k Hk]. apply lookup_lt_Some in Hk as Hk5.
    apply (positions_pos _ _ k); [done|]. by apply bool_decide_eq_true. }
  assert (0 < correctCount guess marks1 L) as Hcc by lia.
  apply positions_exists in Hcc as (j & Hj & [Hg Hc]%andb_true_iff).
  apply bool_decide_eq_true in Hg, Hc. exists j. split; [done|]. right.
  by apply (evaluate_correct_iff j L).
Qed.
End colours.

(** For a guess free of regular-expression syntax characters, the
    occurrences of a letter marked correct or present are never more than the
    occurrences of that letter in the solution. *)
Theorem computeFeedback_coloured_bound (solution guess : JsString) (L : codeUnit) :
  length guess = 5 → length solution = 5 →
  Forall (λ c, regexpLiteral c = true) guess →
  ∃ fb, computeFeedback solution guess = Ok fb ∧
    length (List.filter
      (λ j, bool_decide (guess !! j = Some L) &&
            (bool_decide (fb !! j = Some correct) || bool_decide (fb !! j = Some present)))
      (seq 0 5))
    ≤ length (List.filter (λ c, bool_decide (c = L)) solution).
Proof.
  intros Hg Hs Hlit.
  destruct (computeFeedback_refines solution guess Hg Hs Hlit) as (fb & Hfb & _ & Heq).
  exists fb. split; [done|]. rewrite solutionCount_filter.
  etransitivity; [|apply (evaluate_coloured_bound solution guess Hg Hs L)].
  apply Nat.eq_le_incl, positions_ext. intros j _. rewrite Heq, list_lookup_fmap.
  f_equal. f_equal; apply bool_decide_ext; destruct (fb !! j); cbn; split; congruence.
Qed.

Lemma computeFeedback_coloured_bound_witness :
  ∃ fb, computeFeedback (js "abbey") (js "babbb") = Ok fb ∧
    length (List.filter
      (λ j, bool_decide (js "babbb" !! j = Some 98%N) &&
            (bool_decide (fb !! j = Some correct) || bool_decide (fb !! j = Some present)))
      (seq 0 5))
    ≤ length (List.filter (λ c, bool_decide (c = 98%N)) (js "abbey")).
Proof.
  apply (computeFeedback_coloured_bound (js "abbey") (js "babbb") 98%N);
    [reflexivity|reflexivity|repeat constructor].
Defined.


(** * The keyboard and the evaluation together *)

Lemma isLowerLetter_literal c : isLowerLetter c = true → regexpLiteral c = true.
Proof.
  unfold isLowerLetter, regexpLiteral, regexpThrows, regexpAssertionOrWildcard.
  intros Hc%bool_decide_eq_true.
  rewrite !bool_decide_eq_false_2; [done|..];
    intros Hin;
    repeat (apply elem_of_cons in Hin as [Hin|Hin]; [lia|]);
    by apply elem_of_nil in Hin.
Qed.

Lemma asciiUpper_of_upper k : isUpperLetter k = true → asciiUpper k = k.
Proof.
  unfold isUpperLetter, asciiUpper. intros Hk%bool_decide_eq_true.
  by rewrite bool_decide_eq_false_2 by lia.
Qed.

Lemma asciiUpper_lower_inv c k :
  isLowerLetter c = true → isUpperLetter k = true →
  asciiUpper c = k ↔ c = asciiLower k.
Proof.
  unfold isLowerLetter, isUpperLetter, asciiUpper, asciiLower.
  intros Hc%bool_decide_eq_true Hk%bool_decide_eq_true.
  rewrite !bool_decide_eq_true_2 by done. lia.
Qed.

Lemma pageGuess_feedbackAt g j : Page.feedbackAt (pageGuess g) j = Guess.feedback g !! j.
Proof.
  unfold Page.feedbackAt, pageGuess. cbn. rewrite list_lookup_fmap.
  by destruct (Guess.feedback g !! j).
Qed.

(** The keyboard never greys out a letter of the solution: when every guess
    of the history was scored by [checkGuess] against the solution from five
    ASCII letters, a key shown as known absent is a letter the solution does
    not hold. *)
Theorem getKeyColor_absent_sound (solution : JsString) (stored : list Guess.t)
    (k : codeUnit) :
  length solution = 5 →
  Forall (scoredAgainst solution) stored →
  isUpperLetter k = true →
  Page.getKeyColor (H := asciiCase) (pageGuess <$> stored) [k] = Page.absentKeyClass →
  asciiLower k ∉ solution.
Proof.
  intros Hs Hscored Hk Hgrey Hin.
  apply getKeyColor_absent, isLetterAbsent_iff in Hgrey as [Habsent Hnone].
  assert (toUpperCase (CaseMapping := asciiCase) [k] = [k]) as Hkk.
  { cbn. by rewrite asciiUpper_of_upper. }
  destruct Habsent as (pg & i & Hpg & Hletter & _).
  apply list_elem_of_fmap in Hpg as (g & -> & Hg).
  rewrite list.Forall_forall in Hscored.
  destruct (Hscored g Hg) as (guess & Hlen & Hletters & Hword & Hfb).
  apply (letterAt_key (H := asciiCase) _ _ _ Hkk) in Hletter.
  cbn in Hletter. rewrite Hword in Hletter. cbn in Hletter.
  rewrite list_lookup_fmap in Hletter.
  destruct (guess !! i) as [c|] eqn:Hc; [|done]. injection Hletter as Hck.
  assert (isLowerLetter c = true) as Hclow.
  { rewrite list.Forall_forall in Hletters. apply Hletters.
    by eapply list_elem_of_lookup_2. }
  apply (asciiUpper_lower_inv c k Hclow Hk) in Hck as ->.
  assert (Forall (λ c, regexpLiteral c = true) guess) as Hlit.
  { eapply Forall_impl; [apply isLowerLetter_literal|exact Hletters]. }
  destruct (computeFeedback_refines solution guess Hlen Hs Hlit) as (fb & Hfb' & _ & Heq).
  rewrite Hfb in Hfb'. injection Hfb' as <-.
  destruct (evaluate_letter_found solution guess Hlen Hs (asciiLower k) i Hin Hc)
    as (j & Hj & Hmark).
  assert (Page.letterAt (H := asciiCase) (pageGuess g) j [k] = true) as Hat.
  { apply (letterAt_key (H := asciiCase) _ _ _ Hkk). cbn. rewrite Hword. cbn.
    rewrite list_lookup_fmap, Hj. cbn. f_equal.
    by apply (asciiUpper_lower_inv _ k). }
  apply Hnone. rewrite Heq, list_lookup_fmap in Hmark.
  destruct Hmark as [Hm|Hm]; [left|right]; exists (pageGuess g), j;
    (split; [by apply list_elem_of_fmap_2|]); (split; [done|]);
    rewrite pageGuess_feedbackAt; destruct (Guess.feedback g !! j); cbn in Hm; congruence.
Qed.

Lemma getKeyColor_absent_sound_witness : asciiLower 78 ∉ js "light".
Proof.
  apply (getKeyColor_absent_sound (js "light") [Scenario.nightGuess] 78%N).
  - reflexivity.
  - constructor; [|constructor]. exists (js "night").
    split; [reflexivity|]. split; [repeat constructor|]. split; reflexivity.
  - reflexivity.
  - reflexivity.
Defined.

Section win.
Context `{CaseMapping} `{UsersModule}.

(** An accepted submission against a solution of 5 code units is reported
    correct exactly when all five marks are correct, and a correct guess ends
    the game. *)
Theorem checkGuess_correct_iff_all_correct req date rawGuess db db1 db' out
    puzzleSolution :
  resolveSolution req date db = (db1, Ok puzzleSolution) →
  length (toLowerCase puzzleSolution) = 5 →
  checkGuess req date rawGuess db = (db', Ok out) →
  (isCorrect out = true ↔ feedback out = replicate 5 correct) ∧
  (isCorrect out = true → isGameOver out = true).
Proof.
  intros Hres Hs Hrun.
  destruct (checkGuess_Ok_saved _ _ _ _ _ _ Hrun)
    as (identity & db1' & sol' & Hauth & Hres' & Hlen & Hfb & Hcorrect & _).
  rewrite Hres in Hres'. injection Hres' as <- <-.
  split.
  - rewrite Hcorrect, bool_decide_eq_true.
    rewrite <- (computeFeedback_all_correct_aux _ _ Hlen Hs). rewrite Hfb.
    split; congruence.
  - rewrite (checkGuess_stages _ _ _ _ identity Hauth), Hres in Hrun.
    cbv zeta in Hrun. repeat case_match; try done.
    injection Hrun as _ <-. cbn. intros ->. done.
Qed.
End win.

Lemma checkGuess_correct_iff_all_correct_witness :
  (true = true ↔ [correct; correct; correct; correct; correct] = replicate 5 correct) ∧
  (true = true → true = true).
Proof.
  exact (checkGuess_correct_iff_all_correct (H := asciiCase) (H0 := usersByExternalId)
           Scenario.signedIn Scenario.today (js "LIGHT") Scenario.freshDb
           Scenario.freshDb
           (Scenario.run Scenario.signedIn "LIGHT" Scenario.freshDb).1
           {| feedback := [correct; correct; correct; correct; correct];
              isCorrect := true; isGameOver := true |}
           (js "LIGHT") eq_refl eq_refl eq_refl).
Defined.

(** * The public action getPuzzle and the fetch inside checkGuess *)

Section fetching.
Context `{CaseMapping} `{UsersModule}.

Lemma getPuzzle_database req date db : (getPuzzle req date db).1 = db.
Proof. unfold getPuzzle, throw, ret. by destruct (fetch req date). Qed.

Lemma checkGuess_fetch_aux req date rawGuess db identity :
  auth req = Some identity →
  getPuzzleFromDb date db = None →
  match (getPuzzle req date db).2 with
  | Throw e =>
      e = FailedToFetchPuzzle ∧ checkGuess req date rawGuess db = (db, Throw e)
  | Ok data =>
      ∃ db1, resolveSolution req date db = (db1, Ok (pd_solution data)) ∧
             getPuzzleFromDb date db1 = Some (newPuzzle date data) ∧
             wordles (checkGuess req date rawGuess db).1 =
               wordles db ++ [newPuzzle date data]
  end.
Proof.
  intros Hauth Hmiss.
  pose proof (resolveSolution_cases req date db) as Hres.
  rewrite Hmiss in Hres.
  unfold getPuzzle, throw, ret. destruct (fetch req date) as [data|] eqn:Hfetch; cbn.
  - exists (insertPuzzle date data db). split; [done|].
    destruct (storePuzzle_effect date data data db) as (db' & Hstore & Hfound & _).
    unfold storePuzzle in Hstore. rewrite (getPuzzleFromDb_None _ _ Hmiss) in Hstore.
    injection Hstore as <-. rewrite Hmiss in Hfound. split; [done|].
    rewrite (checkGuess_stages _ _ _ _ _ Hauth), Hres. cbv zeta.
    repeat (first [case_decide | case_match]); cbn [fst]; try done;
      match goal with
      | Hs : saveGameStateInternal _ _ _ _ _ = Ok _ |- _ =>
          apply saveGameStateInternal_effect in Hs as (? & _ & _ & _ & _ & _ & _ & ->);
          done
      end.
  - split; [done|]. by rewrite (checkGuess_stages _ _ _ _ _ Hauth), Hres.
Qed.
End fetching.

(** For a date with no stored puzzle, [checkGuess] fetches as the public
    action [getPuzzle] does: where [getPuzzle] throws, the submission fails
    with that error and the database is as before; where it returns, its
    solution is the one the submission is scored against, and its answer is
    the document added to the puzzles, whether the submission is then
    accepted or not. [getPuzzle] itself never writes. *)
Theorem checkGuess_fetches_as_getPuzzle `{CaseMapping} `{UsersModule}
    req date rawGuess db identity :
  auth req = Some identity →
  getPuzzleFromDb date db = None →
  (getPuzzle req date db).1 = db ∧
  match (getPuzzle req date db).2 with
  | Throw e =>
      e = FailedToFetchPuzzle ∧ checkGuess req date rawGuess db = (db, Throw e)
  | Ok data =>
      ∃ db1, resolveSolution req date db = (db1, Ok (pd_solution data)) ∧
             getPuzzleFromDb date db1 = Some (newPuzzle date data) ∧
             wordles (checkGuess req date rawGuess db).1 =
               wordles db ++ [newPuzzle date data]
  end.
Proof.
  intros Hauth Hmiss. split; [apply getPuzzle_database|].
  by apply (checkGuess_fetch_aux req date rawGuess db identity).
Qed.

Lemma checkGuess_fetches_as_getPuzzle_witness :
  (getPuzzle Scenario.signedInOnline Scenario.today Scenario.noPuzzleDb).1 =
    Scenario.noPuzzleDb ∧
  match (getPuzzle Scenario.signedInOnline Scenario.today Scenario.noPuzzleDb).2 with
  | Throw e =>
      e = FailedToFetchPuzzle ∧
      checkGuess (H := asciiCase) (H0 := usersByExternalId)
        Scenario.signedInOnline Scenario.today (js "abc") Scenario.noPuzzleDb =
      (Scenario.noPuzzleDb, Throw e)
  | Ok data =>
      ∃ db1, resolveSolution Scenario.signedInOnline Scenario.today Scenario.noPuzzleDb =
               (db1, Ok (pd_solution data)) ∧
             getPuzzleFromDb Scenario.today db1 = Some (newPuzzle Scenario.today data) ∧
             wordles (checkGuess (H := asciiCase) (H0 := usersByExternalId)
                        Scenario.signedInOnline Scenario.today (js "abc")
                        Scenario.noPuzzleDb).1 =
               wordles Scenario.noPuzzleDb ++ [newPuzzle Scenario.today data]
  end.
Proof.
  apply (checkGuess_fetches_as_getPuzzle (H := asciiCase) (H0 := usersByExternalId)
           Scenario.signedInOnline Scenario.today (js "abc") Scenario.noPuzzleDb
           {| subject := js "user_2ada" |}); reflexivity.
Defined.

(** * The game page: what is typed and what is sent *)

Section page.
Context `{CaseMapping}.
Import Controller.

Lemma matchesLetter_singleton k :
  length k = 1 → matchesLetter k = true →
  ∃ c, k = [c] ∧ isLowerLetter c || isUpperLetter c = true.
Proof.
  destruct k as [|c [|]]; try done. intros _. unfold matchesLetter. cbn.
  rewrite orb_false_r. eauto.
Qed.

Lemma isUpperLetter_asciiUpper c :
  isLowerLetter c || isUpperLetter c = true → isUpperLetter (asciiUpper c) = true.
Proof.
  unfold isLowerLetter, isUpperLetter, asciiUpper.
  intros [Hc|Hc]%orb_true_iff; apply bool_decide_eq_true in Hc;
    apply bool_decide_eq_true.
  - rewrite bool_decide_eq_true_2 by done. lia.
  - rewrite bool_decide_eq_false_2 by lia. done.
Qed.

Lemma singleton_not_named (c : codeUnit) :
  [c] ≠ js "Enter" ∧ [c] ≠ js "Backspace".
Proof. split; intros Heq; apply (f_equal length) in Heq; done. Qed.

Lemma handleSubmitGuess_call st st' call :
  handleSubmitGuess st = (st', call) →
  currentGuess st' = currentGuess st ∧
  ∀ sub, call = Some sub →
    sub = {| date := todayDate st; guess := currentGuess st |} ∧
    length (currentGuess st) = 5 ∧ todayDate st ≠ [] ∧
    isGameOver st = false ∧ isLoading st' = true.
Proof.
  unfold handleSubmitGuess.
  destruct (bool_decide (length (currentGuess st) ≠ 5)) eqn:Hlen; cbn.
  { intros [= <- <-]. done. }
  destruct (bool_decide (todayDate st = [])) eqn:Hdate; cbn.
  { intros [= <- <-]. done. }
  destruct (isGameOver st) eqn:Hover.
  { intros [= <- <-]. done. }
  intros [= <- <-]. split; [done|]. intros sub [= <-].
  apply bool_decide_eq_false in Hlen, Hdate. split_and!; try done. lia.
Qed.

Lemma handleKeyPress_call k st st' call :
  upperCasesLetters →
  handleKeyPress k st = (st', call) → inputOk st →
  inputOk st' ∧
  ∀ sub, call = Some sub →
    sub = {| date := todayDate st; guess := currentGuess st |} ∧
    length (currentGuess st) = 5 ∧ todayDate st ≠ [] ∧
    isGameOver st = false ∧ isLoading st = false ∧ isLoading st' = true.
Proof.
  intros Hlaw. unfold handleKeyPress.
  destruct (isGameOver st || isLoading st) eqn:Hidle.
  { intros [= <- <-]. done. }
  apply orb_false_iff in Hidle as [Hover Hload].
  case_bool_decide.
  { case_bool_decide; [|by intros [= <- <-]].
    intros Hcall [Hle Hup]. apply handleSubmitGuess_call in Hcall as [Hsame Hcall].
    split; [by unfold inputOk; rewrite Hsame|].
    intros sub Hsub. destruct (Hcall sub Hsub) as (? & ? & ? & ? & ?). done. }
  case_bool_decide.
  { intros [= <- <-] [Hle Hup]. split; [|done]. unfold inputOk. cbn. split.
    - rewrite length_take. lia.
    - by apply Forall_take. }
  case_bool_decide as Hone; cbn [andb]; [|by intros [= <- <-]].
  destruct (matchesLetter k) eqn:Hmatch; cbn [andb]; [|by intros [= <- <-]].
  case_bool_decide; [|by intros [= <- <-]].
  destruct (matchesLetter_singleton k Hone Hmatch) as (c & -> & Hc).
  intros [= <- <-] [Hle Hup]. split; [|done]. unfold inputOk. cbn.
  rewrite (Hlaw c Hc). split.
  - rewrite length_app. cbn. lia.
  - apply Forall_app. split; [done|]. repeat constructor.
    by apply isUpperLetter_asciiUpper.
Qed.

Lemma step_call ev st st' call :
  upperCasesLetters →
  step ev st = (st', call) → inputOk st →
  inputOk st' ∧
  ∀ sub, call = Some sub →
    sub = {| date := todayDate st; guess := currentGuess st |} ∧
    length (currentGuess st) = 5 ∧ todayDate st ≠ [] ∧
    isGameOver st = false ∧ isLoading st = false ∧ isLoading st' = true.
Proof.
  intros Hlaw. destruct ev as [today|saved|e|letter| | |sent outcome]; cbn [step].
  - intros [= <- <-]. done.
  - intros [= <- <-]. by destruct saved.
  - unfold handleKeyDown. repeat case_match; try (by intros [= <- <-]);
      by apply handleKeyPress_call.
  - case_match; [by intros [= <- <-]|]. by apply handleKeyPress_call.
  - case_match; [by intros [= <- <-]|]. by apply handleKeyPress_call.
  - case_match; [by intros [= <- <-]|]. by apply handleKeyPress_call.
  - intros [= <- <-] [Hle Hup]. split; [|done].
    destruct outcome as [[fb ok over]|message]; unfold inputOk; cbn; [|done].
    split; [lia|constructor].
Qed.

Lemma run_calls events st sub :
  upperCasesLetters →
  inputOk st → sub ∈ (run events st).2 →
  length (guess sub) = 5 ∧ Forall (λ c, isUpperLetter c = true) (guess sub) ∧
  date sub ≠ [].
Proof.
  intros Hlaw. revert st. induction events as [|ev rest IH]; intros st Hok; cbn.
  { by intros ?%elem_of_nil. }
  destruct (step ev st) as [st1 call] eqn:Hstep.
  destruct (run rest st1) as [st2 calls] eqn:Hrun. cbn.
  destruct (step_call ev st st1 call Hlaw Hstep Hok) as [Hok1 Hcall].
  intros [Hin|Hin]%elem_of_app.
  - destruct call as [sub'|]; cbn in Hin; [|by apply elem_of_nil in Hin].
    apply list_elem_of_singleton in Hin as ->.
    destruct (Hcall sub' eq_refl) as (-> & Hlen & Hdate & _). cbn.
    by destruct Hok.
  - apply (IH st1 Hok1). by rewrite Hrun.
Qed.

(** While a call is in flight, nothing but its settling ends the loading,
    changes the input or makes a second call. *)
Lemma run_loading events st :
  isLoading st = true →
  Forall (λ ev, ∀ sent outcome, ev ≠ Settled sent outcome) events →
  (run events st).2 = [] ∧
  isLoading (run events st).1 = true ∧
  currentGuess (run events st).1 = currentGuess st.
Proof.
  intros Hload Hev. revert st Hload.
  induction Hev as [|ev rest Hns _ IH]; intros st Hload; [done|].
  assert (∃ st1, step ev st = (st1, None) ∧ isLoading st1 = true ∧
                 currentGuess st1 = currentGuess st) as (st1 & Hstep & Hload1 & Hcur).
  { destruct ev as [today|saved|e|letter| | |sent outcome]; cbn [step].
    - eexists. split; [done|]. done.
    - eexists. split; [done|]. by destruct saved.
    - exists st. split; [|done]. unfold handleKeyDown, handleKeyPress.
      rewrite Hload, orb_true_r. by repeat case_match.
    - exists st. by rewrite Hload, orb_true_r.
    - exists st. by rewrite Hload, orb_true_r.
    - exists st. by rewrite Hload, orb_true_r.
    - by destruct (Hns sent outcome). }
  cbn. rewrite Hstep. destruct (IH st1 Hload1) as (Hcalls & Hl & Hc).
  destruct (run rest st1) as [st2 calls]. cbn in *. subst calls.
  by rewrite Hl, Hc.
Qed.

Lemma type_letter c st :
  upperCasesLetters →
  isGameOver st = false → isLoading st = false →
  length (currentGuess st) < 5 →
  isLowerLetter c || isUpperLetter c = true →
  step (KeyDown (plainKey [c])) st =
    (setCurrentGuess (λ prev, prev ++ [asciiUpper c]) st, None).
Proof.
  intros Hlaw Hover Hload Hlen Hc.
  destruct (singleton_not_named c) as [HnE HnB].
  cbn [step]. unfold handleKeyDown, handleKeyPress, plainKey. cbn [key metaKey ctrlKey altKey].
  rewrite Hover, Hload. cbn [orb].
  rewrite !(bool_decide_eq_false_2 _ HnE), !(bool_decide_eq_false_2 _ HnB).
  assert (matchesLetter [c] = true) as ->.
  { unfold matchesLetter. cbn. by rewrite orb_false_r. }
  rewrite (bool_decide_eq_true_2 (length [c] = 1)) by done.
  rewrite (bool_decide_eq_true_2 (length (currentGuess st) < 5)) by done.
  cbn [orb andb]. by rewrite (Hlaw c Hc).
Qed.

Lemma press_backspace st :
  isGameOver st = false → isLoading st = false →
  step (KeyDown (plainKey (js "Backspace"))) st =
    (setCurrentGuess (λ prev, take (length prev - 1) prev) st, None).
Proof.
  intros Hover Hload. cbn [step]. unfold handleKeyDown, handleKeyPress, plainKey.
  cbn [key metaKey ctrlKey altKey]. by rewrite Hover, Hload.
Qed.

Lemma press_enter st :
  isGameOver st = false → isLoading st = false →
  length (currentGuess st) = 5 → todayDate st ≠ [] →
  step (KeyDown (plainKey (js "Enter"))) st =
    ({| guesses := guesses st; currentGuess := currentGuess st;
        isGameOver := false; isLoading := true; error := None;
        todayDate := todayDate st |},
     Some {| date := todayDate st; guess := currentGuess st |}).
Proof.
  intros Hover Hload Hlen Hdate. cbn [step].
  unfold handleKeyDown, handleKeyPress, handleSubmitGuess, plainKey.
  cbn [key metaKey ctrlKey altKey]. rewrite Hover, Hload. cbn [orb].
  rewrite (bool_decide_eq_true_2 (js "Enter" = js "Enter")) by done. cbn [orb].
  rewrite (bool_decide_eq_true_2 (length (currentGuess st) = 5)) by done.
  rewrite (bool_decide_eq_false_2 (length (currentGuess st) ≠ 5)) by (intros ?; done).
  rewrite (bool_decide_eq_false_2 (todayDate st = [])) by done.
  done.
Qed.

Lemma type_letters letters st :
  upperCasesLetters →
  isGameOver st = false → isLoading st = false →
  length (currentGuess st) + length letters ≤ 5 →
  Forall (λ c, isLowerLetter c || isUpperLetter c = true) letters →
  run ((λ c, KeyDown (plainKey [c])) <$> letters) st =
    (setCurrentGuess (λ prev, prev ++ (asciiUpper <$> letters)) st, []).
Proof.
  intros Hlaw. revert st.
  induction letters as [|c rest IH]; intros st Hover Hload Hlen Hall.
  { cbn. unfold setCurrentGuess. rewrite app_nil_r. by destruct st. }
  apply list.Forall_cons in Hall as [Hc Hall]. cbn in Hlen.
  cbn [fmap list_fmap run].
  change (list_fmap _ _ ?f rest) with (f <$> rest).
  rewrite (type_letter c st Hlaw Hover Hload ltac:(lia) Hc).
  rewrite IH; [|done|done|cbn; rewrite length_app; cbn; lia|done].
  unfold setCurrentGuess. cbn. by rewrite <- app_assoc.
Qed.

Lemma run_app events1 events2 st :
  run (events1 ++ events2) st =
    ((run events2 (run events1 st).1).1,
     (run events1 st).2 ++ (run events2 (run events1 st).1).2).
Proof.
  revert st. induction events1 as [|ev rest IH]; intros st; cbn.
  { by destruct (run events2 st). }
  destruct (step ev st) as [st1 call]. rewrite IH.
  destruct (run rest st1) as [st2 calls]. cbn.
  by rewrite app_assoc.
Qed.
End page.

(** Whatever happens to the page, in whatever order, every call of
    [checkGuess] it makes carries five capital letters A-Z and a date that is
    not empty; the host is asked only to turn a single ASCII letter into its
    capital. *)
Theorem page_sends_five_capitals `{CaseMapping} (events : list Controller.Event)
    (sub : Controller.Submission) :
  upperCasesLetters →
  sub ∈ (Controller.run events Controller.initial).2 →
  length (Controller.guess sub) = 5 ∧
  Forall (λ c, isUpperLetter c = true) (Controller.guess sub) ∧
  Controller.date sub ≠ [].
Proof.
  intros Hlaw. apply run_calls; [done|]. split; [cbn; lia|constructor].
Qed.

(** While a call of [checkGuess] is in flight, no key and no button makes a
    second call, changes the input or ends the loading; only the settling of
    the call does. *)
Theorem page_one_call_in_flight `{CaseMapping} (events : list Controller.Event)
    (st : Controller.State) :
  Controller.isLoading st = true →
  Forall (λ ev, ∀ sent outcome, ev ≠ Controller.Settled sent outcome) events →
  (Controller.run events st).2 = [] ∧
  Controller.isLoading (Controller.run events st).1 = true ∧
  Controller.currentGuess (Controller.run events st).1 = Controller.currentGuess st.
Proof. apply run_loading. Qed.

(** Typing five letters, in either case, and Enter on an idle page with an
    empty input sends exactly one call, with the page's date and the letters
    as capitals, and leaves the page loading with the input still shown. *)
Theorem page_type_and_enter `{CaseMapping} (letters : JsString) (st : Controller.State) :
  upperCasesLetters →
  Controller.isGameOver st = false → Controller.isLoading st = false →
  Controller.currentGuess st = [] → Controller.todayDate st ≠ [] →
  length letters = 5 →
  Forall (λ c, isLowerLetter c || isUpperLetter c = true) letters →
  Controller.run
    (((λ c, Controller.KeyDown (Controller.plainKey [c])) <$> letters) ++
     [Controller.KeyDown (Controller.plainKey (js "Enter"))]) st =
  ({| Controller.guesses := Controller.guesses st;
      Controller.currentGuess := asciiUpper <$> letters;
      Controller.isGameOver := false; Controller.isLoading := true;
      Controller.error := None;
      Controller.todayDate := Controller.todayDate st |},
   [ {| Controller.date := Controller.todayDate st;
        Controller.guess := asciiUpper <$> letters |} ]).
Proof.
  intros Hlaw Hover Hload Hempty Hdate Hlen Hall.
  rewrite run_app, type_letters; [|done|done|done|rewrite Hempty; cbn; lia|done].
  cbn [fst snd Controller.run].
  rewrite press_enter; [|done|done|cbn; rewrite Hempty; cbn; rewrite length_fmap; done|done].
  cbn. by rewrite Hempty.
Qed.

(** Backspace takes back the letter just typed: the page is as it was. *)
Theorem page_backspace_undoes `{CaseMapping} (c : codeUnit) (st : Controller.State) :
  upperCasesLetters →
  Controller.isGameOver st = false → Controller.isLoading st = false →
  length (Controller.currentGuess st) < 5 →
  isLowerLetter c || isUpperLetter c = true →
  Controller.step (Controller.KeyDown (Controller.plainKey (js "Backspace")))
    (Controller.step (Controller.KeyDown (Controller.plainKey [c])) st).1 = (st, None).
Proof.
  intros Hlaw Hover Hload Hlen Hc.
  rewrite (type_letter c st Hlaw Hover Hload Hlen Hc). cbn [fst].
  rewrite press_backspace by done.
  unfold Controller.setCurrentGuess. cbn.
  rewrite length_app. cbn.
  replace (length (Controller.currentGuess st) + 1 - 1)
    with (length (Controller.currentGuess st)) by lia.
  rewrite take_app_length. by destruct st.
Qed.

(** The limit of six guesses guards the ENTER button only: on an idle page
    (game not over, no call in flight) that shows six guesses or more, with
    five letters typed and the date known, the button does nothing, and the
    Enter key sends the input as a further guess. *)
Theorem page_enter_key_unguarded `{CaseMapping} (st : Controller.State) :
  6 ≤ length (Controller.guesses st) →
  Controller.isGameOver st = false → Controller.isLoading st = false →
  length (Controller.currentGuess st) = 5 → Controller.todayDate st ≠ [] →
  Controller.step Controller.ClickEnter st = (st, None) ∧
  (Controller.step (Controller.KeyDown (Controller.plainKey (js "Enter"))) st).2 =
    Some {| Controller.date := Controller.todayDate st;
            Controller.guess := Controller.currentGuess st |}.
Proof.
  intros Hsix Hover Hload Hlen Hdate. split.
  - cbn [Controller.step]. rewrite Hover, Hload.
    rewrite (bool_decide_eq_true_2 (6 ≤ length (Controller.guesses st))) by done.
    by rewrite !orb_true_r.
  - by rewrite press_enter.
Qed.

Lemma page_sends_five_capitals_witness :
  length (js "NIGHT") = 5 ∧
  Forall (λ c, isUpperLetter c = true) (js "NIGHT") ∧
  Scenario.today ≠ [].
Proof.
  apply (page_sends_five_capitals (H := asciiCase) Scenario.typeNight Scenario.nightCall).
  - intros c _. reflexivity.
  - vm_compute. constructor.
Defined.

Lemma page_one_call_in_flight_witness :
  (Controller.run (H := asciiCase)
     [Controller.KeyDown (Controller.plainKey (js "Enter"));
      Controller.ClickLetter (js "A"); Controller.ClickBackspace;
      Controller.Loaded None]
     (Controller.run (H := asciiCase) Scenario.typeNight Controller.initial).1).2 = [] ∧
  Controller.isLoading
    (Controller.run (H := asciiCase)
       [Controller.KeyDown (Controller.plainKey (js "Enter"));
        Controller.ClickLetter (js "A"); Controller.ClickBackspace;
        Controller.Loaded None]
       (Controller.run (H := asciiCase) Scenario.typeNight Controller.initial).1).1 = true ∧
  Controller.currentGuess
    (Controller.run (H := asciiCase)
       [Controller.KeyDown (Controller.plainKey (js "Enter"));
        Controller.ClickLetter (js "A"); Controller.ClickBackspace;
        Controller.Loaded None]
       (Controller.run (H := asciiCase) Scenario.typeNight Controller.initial).1).1 =
  Controller.currentGuess
    (Controller.run (H := asciiCase) Scenario.typeNight Controller.initial).1.
Proof.
  apply (page_one_call_in_flight (H := asciiCase)).
  - reflexivity.
  - repeat constructor; intros sent outcome Heq; discriminate Heq.
Defined.

Lemma page_type_and_enter_witness :
  Controller.run (H := asciiCase)
    (((λ c, Controller.KeyDown (Controller.plainKey [c])) <$> js "night") ++
     [Controller.KeyDown (Controller.plainKey (js "Enter"))]) Scenario.opened =
  ({| Controller.guesses := Controller.guesses Scenario.opened;
      Controller.currentGuess := asciiUpper <$> js "night";
      Controller.isGameOver := false; Controller.isLoading := true;
      Controller.error := None;
      Controller.todayDate := Controller.todayDate Scenario.opened |},
   [ {| Controller.date := Controller.todayDate Scenario.opened;
        Controller.guess := asciiUpper <$> js "night" |} ]).
Proof.
  apply (page_type_and_enter (H := asciiCase) (js "night") Scenario.opened).
  - intros c _. reflexivity.
  - reflexivity.
  - reflexivity.
  - reflexivity.
  - intros Heq. discriminate Heq.
  - reflexivity.
  - repeat constructor.
Defined.

Lemma page_backspace_undoes_witness :
  Controller.step (H := asciiCase)
    (Controller.KeyDown (Controller.plainKey (js "Backspace")))
    (Controller.step (H := asciiCase)
       (Controller.KeyDown (Controller.plainKey [110%N])) Scenario.opened).1 =
  (Scenario.opened, None).
Proof.
  apply (page_backspace_undoes (H := asciiCase) 110%N Scenario.opened).
  - intros c _. reflexivity.
  - reflexivity.
  - reflexivity.
  - vm_compute. lia.
  - reflexivity.
Defined.

Lemma page_enter_key_unguarded_witness :
  Controller.step (H := asciiCase) Controller.ClickEnter Scenario.sixShown =
    (Scenario.sixShown, None) ∧
  (Controller.step (H := asciiCase)
     (Controller.KeyDown (Controller.plainKey (js "Enter"))) Scenario.sixShown).2 =
    Some {| Controller.date := Controller.todayDate Scenario.sixShown;
            Controller.guess := Controller.currentGuess Scenario.sixShown |}.
Proof.
  apply (page_enter_key_unguarded (H := asciiCase) Scenario.sixShown).
  - vm_compute. lia.
  - reflexivity.
  - reflexivity.
  - reflexivity.
  - intros Heq. discriminate Heq.
Defined.

(** * The page and the backend together *)

Section page_and_backend.
Context `{UsersModule}.

Lemma isLowerLetter_asciiLower c : isUpperLetter c = true → isLowerLetter (asciiLower c) = true.
Proof.
  unfold isLowerLetter, isUpperLetter, asciiLower.
  intros Hc%bool_decide_eq_true. apply bool_decide_eq_true.
  rewrite bool_decide_eq_true_2 by done. lia.
Qed.

Lemma checkGuess_capitals_throw req date rawGuess db db' e :
  length rawGuess = 5 → Forall (λ c, isUpperLetter c = true) rawGuess →
  checkGuess (H := asciiCase) req date rawGuess db = (db', Throw e) →
  e = NotAuthenticated ∨ e = FailedToFetchPuzzle ∨
  e = MaximumGuessesReached ∨ e = GameIsAlreadyOver ∨
  ∃ db1, getCurrentUserOrThrow (auth req) db1 = Throw e.
Proof.
  intros Hlen Hup.
  assert (auth req = None ∨ ∃ identity, auth req = Some identity)
    as [Hauth|[identity Hauth]] by (destruct (auth req); eauto).
  { unfold checkGuess. rewrite Hauth. intros [= _ <-]. by left. }
  rewrite (checkGuess_stages (H := asciiCase) _ _ _ _ _ Hauth), resolveSolution_cases.
  assert (∀ solution, ∃ fb,
            computeFeedback solution (toLowerCase (CaseMapping := asciiCase) rawGuess) = Ok fb)
    as Hfb.
  { intros solution.
    destruct (computeFeedback_five_values_aux solution
                (toLowerCase (CaseMapping := asciiCase) rawGuess)) as (fb & Hfb & _).
    - cbn. by rewrite length_fmap.
    - cbn. apply Forall_fmap. eapply list.Forall_impl; [exact Hup|].
      intros c Hc. cbn. apply regexpLiteral_no_throw, isLowerLetter_literal.
      by apply isLowerLetter_asciiLower.
    - by exists fb. }
  assert (length (toLowerCase (CaseMapping := asciiCase) rawGuess) = 5) as Hlen5.
  { cbn. by rewrite length_fmap. }
  assert (∀ db1 puzzleSolution,
    (let solution := toLowerCase (CaseMapping := asciiCase) puzzleSolution in
     let guess := toLowerCase (CaseMapping := asciiCase) rawGuess in
     if decide (length guess ≠ 5) then (db1, Throw GuessMustBe5Letters) else
     let currentState := getGameStateInternal (subject identity) date db1 in
     if from_option (λ st, bool_decide (6 ≤ length (GameState.guesses st))) false currentState
     then (db1, Throw MaximumGuessesReached) else
     if from_option GameState.isGameOver false currentState
     then (db1, Throw GameIsAlreadyOver) else
     match computeFeedback solution guess with
     | Throw e => (db1, Throw e)
     | Ok feedback =>
         let isCorrect := bool_decide (guess = solution) in
         let updatedGuesses :=
           from_option GameState.guesses [] currentState ++
           [ {| Guess.word := toUpperCase (CaseMapping := asciiCase) guess;
                Guess.feedback := feedback |} ] in
         let isGameOver := isCorrect || bool_decide (6 ≤ length updatedGuesses) in
         match saveGameStateInternal (auth req) date updatedGuesses isGameOver db1 with
         | Throw e => (db1, Throw e)
         | Ok db2 =>
             (db2, Ok {| feedback := feedback; isCorrect := isCorrect;
                         isGameOver := isGameOver |})
         end
     end) = (db', Throw e) →
    e = NotAuthenticated ∨ e = FailedToFetchPuzzle ∨
    e = MaximumGuessesReached ∨ e = GameIsAlreadyOver ∨
    ∃ db1, getCurrentUserOrThrow (auth req) db1 = Throw e) as Hrest.
  { intros db1 puzzleSolution. cbv zeta.
    destruct (decide _) as [Hne|_]; [done|].
    destruct (from_option _ false _); [intros [= _ <-]; auto|].
    destruct (from_option _ false _); [intros [= _ <-]; auto|].
    destruct (Hfb (toLowerCase (CaseMapping := asciiCase) puzzleSolution)) as [fb ->].
    destruct (saveGameStateInternal _ _ _ _ _) as [db2|e'] eqn:Hsave; [done|].
    intros [= _ <-]. apply saveGameStateInternal_Throw in Hsave. eauto 6. }
  destruct (getPuzzleFromDb date db) as [p|]; [apply Hrest|].
  destruct (fetch req date) as [data|]; [apply Hrest|].
  intros [= _ <-]. auto.
Qed.
End page_and_backend.

(** No call the page makes is rejected for its form: when [checkGuess]
    throws on a guess and date the page sent, the caller is not signed in,
    the puzzle could not be fetched, the game found is full or over, or the
    error is the one [getCurrentUserOrThrow] threw; neither the check of the
    length nor the construction of a regular expression rejects it. *)
Theorem page_call_well_formed `{UsersModule} (events : list Controller.Event)
    (sub : Controller.Submission) req db db' e :
  sub ∈ (Controller.run (H := asciiCase) events Controller.initial).2 →
  checkGuess (H := asciiCase) req (Controller.date sub) (Controller.guess sub) db =
    (db', Throw e) →
  e = NotAuthenticated ∨ e = FailedToFetchPuzzle ∨
  e = MaximumGuessesReached ∨ e = GameIsAlreadyOver ∨
  ∃ db1, getCurrentUserOrThrow (auth req) db1 = Throw e.
Proof.
  intros Hsub.
  destruct (run_calls (H := asciiCase) events Controller.initial sub) as (Hlen & Hup & _).
  - intros c _. reflexivity.
  - split; [cbn; lia|constructor].
  - done.
  - by apply checkGuess_capitals_throw.
Qed.

Lemma page_call_well_formed_witness :
  MaximumGuessesReached = NotAuthenticated ∨
  MaximumGuessesReached = FailedToFetchPuzzle ∨
  MaximumGuessesReached = MaximumGuessesReached ∨
  MaximumGuessesReached = GameIsAlreadyOver ∨
  ∃ db1, getCurrentUserOrThrow (UsersModule := usersByExternalId)
           (auth Scenario.signedIn) db1 = Throw MaximumGuessesReached.
Proof.
  apply (page_call_well_formed (H := usersByExternalId) Scenario.typeNight
           Scenario.nightCall Scenario.signedIn Scenario.foundLostDb Scenario.foundLostDb).
  - vm_compute. constructor.
  - reflexivity.
Defined.

(** * The duplicate-letter property *)

Section duplicate_letter.
Variables solution guess : JsString.
Hypothesis guess_length : length guess = 5.
Variable L : codeUnit.
Hypothesis L_literal : regexpLiteral L = true.

(** The counts a round of the second loop computes for the letter [L]. *)
Local Abbreviation occurrences :=
  (length (List.filter (λ u, bool_decide (u = L)) solution)).
Local Abbreviation correctOf :=
  (mapReduceSum (λ sol idx,
     if bool_decide (Some sol = Some L) && bool_decide (guess !! idx = Some L)
     then 1 else 0) solution).
Local Abbreviation presentBefore fb i :=
  (length (jsFilter (λ g idx,
     bool_decide (Some g = Some L) &&
     bool_decide (arrayGet fb idx = Some present)) (take i guess))).
Local Abbreviation verdict fb i :=
  (if bool_decide (L ∈ solution) &&
      bool_decide (correctOf + presentBefore fb i < occurrences)
   then present else absent).

Lemma presentBefore_ext fb fb' i :
  (∀ k, k < i → arrayGet fb k = arrayGet fb' k) →
  presentBefore fb i = presentBefore fb' i.
Proof.
  intros Hext. rewrite !length_jsFilter. apply positions_ext. intros j Hj.
  rewrite length_take in Hj.
  destruct (take i guess !! j); simpl; [|done].
  by rewrite Hext by lia.
Qed.

Lemma presentBefore_pos fb i j :
  j < i → guess !! j = Some L → arrayGet fb j = Some present →
  0 < presentBefore fb i.
Proof.
  intros Hji Hj Hp. rewrite length_jsFilter.
  apply lookup_lt_Some in Hj as Hlt.
  apply (positions_pos _ _ j).
  - rewrite length_take. lia.
  - rewrite lookup_take_lt, Hj by done. simpl.
    by rewrite !bool_decide_eq_true_2.
Qed.

Lemma presentBefore_inv fb i :
  0 < presentBefore fb i →
  ∃ j, j < i ∧ guess !! j = Some L ∧ arrayGet fb j = Some present.
Proof.
  rewrite length_jsFilter. intros (j & Hj & Hpred)%positions_exists.
  rewrite length_take in Hj.
  rewrite lookup_take_lt in Hpred by lia.
  destruct (guess !! j) as [g|] eqn:Hg; simpl in Hpred; [|done].
  apply andb_true_iff in Hpred as [Hg'%bool_decide_eq_true Hp%bool_decide_eq_true].
  exists j. split; [lia|]. split; [congruence|done].
Qed.

(** A round at a position that holds [L] and is not marked correct returns,
    and writes what the counts say. *)
Lemma secondPassBody_literal fb i :
  guess !! i = Some L → arrayGet fb i ≠ Some correct →
  secondPassBody solution guess solution fb i = Ok (arraySet i (verdict fb i) fb).
Proof.
  intros HL Hc. unfold secondPassBody. rewrite HL, decide_False by done.
  rewrite (matchCount_literal solution L L_literal), <- solutionCount_filter.
  cbn [includes]. rewrite includesString_singleton.
  by destruct (_ && _).
Qed.

(** After [n] rounds that returned, every position below [n] that holds [L]
    and is not correct carries the verdict of the counts, read off the array
    as it is now. *)
Lemma secondPassPrefix_literal n fb :
  n ≤ 5 →
  secondPassPrefix solution guess n = Ok fb →
  ∀ j, j < n → guess !! j = Some L → arrayGet fb j ≠ Some correct →
       arrayGet fb j = Some (verdict fb j).
Proof.
  revert fb. induction n as [|n IH]; intros fb Hn; [lia|].
  rewrite secondPassPrefix_S.
  destruct (secondPassPrefix solution guess n) as [fb0|e] eqn:Hfb0; [|done].
  specialize (IH fb0 ltac:(lia) eq_refl).
  destruct (secondPassPrefix_Ok solution guess guess_length n fb0 ltac:(lia) Hfb0)
    as (_ & Hcorrect0 & _).
  intros Hstep j Hj HL Hc.
  pose proof (secondPassBody_Ok solution guess guess_length fb0 fb n Hstep)
    as (_ & Hother & Hkeep & _).
  assert (∀ k, k < n → arrayGet fb k = arrayGet fb0 k) as Hbelow.
  { intros k Hk. apply Hother. lia. }
  destruct (decide (j = n)) as [->|Hne].
  - assert (arrayGet fb0 n ≠ Some correct) as Hc0.
    { intros Hc0. apply Hc. by rewrite (Hkeep Hc0). }
    rewrite (secondPassBody_literal fb0 n HL Hc0) in Hstep. injection Hstep as <-.
    rewrite arrayGet_arraySet, decide_True by done.
    rewrite (presentBefore_ext (arraySet n _ fb0) fb0); [done|].
    intros k Hk. rewrite arrayGet_arraySet. by rewrite decide_False by lia.
  - rewrite (presentBefore_ext fb fb0) by (intros k Hk; apply Hbelow; lia).
    rewrite Hbelow by lia. apply IH; [lia|done|].
    by rewrite <- Hbelow by lia.
Qed.

(** The later of two occurrences of a letter the solution holds once is
    never present when the earlier one is not correct. *)
Lemma computeFeedback_later_not_present fb p q :
  occurrences = 1 →
  p < q → guess !! p = Some L → guess !! q = Some L →
  computeFeedback solution guess = Ok fb →
  fb !! p ≠ Some correct → fb !! q ≠ Some present.
Proof.
  intros Hone Hpq Hp Hq Hfb Hpc Hqp.
  unfold computeFeedback, computeFeedbackArray, secondPass in Hfb.
  fold (secondPassPrefix solution guess 5) in Hfb.
  destruct (secondPassPrefix solution guess 5) as [arr|e] eqn:Harr; [|done].
  destruct (secondPassPrefix_Ok solution guess guess_length 5 arr ltac:(lia) Harr)
    as (Hlen & _ & Hsome & _).
  destruct (denseArray_Ok arr) as (l & Hl & ->).
  { intros j Hj. apply Hsome. lia. }
  rewrite Hl in Hfb. injection Hfb as ->.
  assert (∀ j, arrayGet (Some <$> fb) j = fb !! j) as Hget.
  { intros j. unfold arrayGet. rewrite list_lookup_fmap. by destruct (fb !! j). }
  apply lookup_lt_Some in Hq as Hq5. rewrite guess_length in Hq5.
  pose proof (secondPassPrefix_literal 5 _ ltac:(lia) Harr) as Hmarks.
  pose proof (Hmarks q Hq5 Hq) as Hmq. rewrite Hget, Hqp in Hmq.
  specialize (Hmq ltac:(done)). injection Hmq as Hmq.
  pose proof (Hmarks p ltac:(lia) Hp) as Hmp. rewrite Hget in Hmp.
  specialize (Hmp Hpc).
  rewrite Hone in Hmq, Hmp.
  clear Hmarks.
  destruct (bool_decide (L ∈ solution)); [|done]. cbn [andb] in Hmq, Hmp.
  destruct (bool_decide (_ + presentBefore (Some <$> fb) q < 1)) eqn:Hq0; [|done].
  apply bool_decide_eq_true in Hq0. clear Hmq.
  destruct (bool_decide (_ + presentBefore (Some <$> fb) p < 1)) eqn:Hp0;
    [apply bool_decide_eq_true in Hp0|apply bool_decide_eq_false in Hp0].
  - pose proof (presentBefore_pos (Some <$> fb) q p Hpq Hp) as Hpos.
    rewrite Hget in Hpos. specialize (Hpos Hmp). lia.
  - destruct (presentBefore_inv (Some <$> fb) p ltac:(lia)) as (j & Hj & HjL & Hjp).
    pose proof (presentBefore_pos (Some <$> fb) q j ltac:(lia) HjL Hjp). lia.
Qed.
End duplicate_letter.

(** C7: for every solution that holds the letter L exactly once and every
    guess of 5 code units that holds L at positions p < q, neither marked
    correct: at most one of p and q is marked present, and if exactly one is,
    it is p. L is any unit the RegExp takes literally, as every letter is; the
    other units of the guess are arbitrary. The marks are those of an
    evaluation that returned, and the evaluation returns whenever the guess
    holds no unit the RegExp constructor refuses. *)
Theorem computeFeedback_duplicate_letter (solution guess : JsString)
    (L : codeUnit) (p q : nat) :
  length guess = 5 →
  regexpLiteral L = true →
  length (List.filter (λ c, bool_decide (c = L)) solution) = 1 →
  p < q → guess !! p = Some L → guess !! q = Some L →
  (Forall (λ c, regexpThrows c = false) guess →
   ∃ fb, computeFeedback solution guess = Ok fb) ∧
  ∀ fb, computeFeedback solution guess = Ok fb →
    fb !! p ≠ Some correct → fb !! q ≠ Some correct →
    ¬ (fb !! p = Some present ∧ fb !! q = Some present) ∧
    ((fb !! p = Some present ∧ fb !! q ≠ Some present) ∨
     (fb !! p ≠ Some present ∧ fb !! q = Some present) →
     fb !! p = Some present).
Proof.
  intros Hg Hlit Hone Hpq Hp Hq. split.
  { intros Hok.
    destruct (computeFeedback_five_values_aux solution guess Hg Hok) as (fb & Hfb & _).
    by exists fb. }
  intros fb Hfb Hpc _.
  pose proof (computeFeedback_later_not_present solution guess Hg L Hlit fb p q
                Hone Hpq Hp Hq Hfb Hpc) as Hqp.
  split; [tauto|]. intros [[? _]|[_ ?]]; [done|]. by destruct Hqp.
Qed.

Lemma computeFeedback_duplicate_letter_witness :
  (Forall (λ c, regexpThrows c = false) (js "tt.|x") →
   ∃ fb, computeFeedback (js "light") (js "tt.|x") = Ok fb) ∧
  ∀ fb, computeFeedback (js "light") (js "tt.|x") = Ok fb →
    fb !! 0 ≠ Some correct → fb !! 1 ≠ Some correct →
    ¬ (fb !! 0 = Some present ∧ fb !! 1 = Some present) ∧
    ((fb !! 0 = Some present ∧ fb !! 1 ≠ Some present) ∨
     (fb !! 0 ≠ Some present ∧ fb !! 1 = Some present) →
     fb !! 0 = Some present).
Proof.
  apply (computeFeedback_duplicate_letter (js "light") (js "tt.|x") 116%N 0 1);
    [reflexivity|reflexivity|reflexivity|lia|reflexivity|reflexivity].
Defined.

(** The evaluation of that guess: the first "t" is present, the second is
    absent, and so are the dot and the bar, which the solution does not
    hold. *)
Example computeFeedback_duplicate_letter_trace :
  computeFeedback (js "light") (js "tt.|x") = Ok [present; absent; absent; absent; absent].
Proof. vm_compute. reflexivity. Qed.

(** The letter has to be one the RegExp takes literally: for a dot, which
    ".bcde" holds once, [solution.match(/./g)] counts five matches, and the
    guess "a..xy" has both its dots marked present. *)
Example computeFeedback_duplicate_dot :
  length (List.filter (λ c, bool_decide (c = 46%N)) (js ".bcde")) = 1 ∧
  js "a..xy" !! 1 = Some 46%N ∧ js "a..xy" !! 2 = Some 46%N ∧
  computeFeedback (js ".bcde") (js "a..xy")
    = Ok [absent; present; present; absent; absent].
Proof. repeat split; vm_compute; reflexivity. Qed.
